(** * The deployment controller (pkg/controller/deployment/deployment_controller.go)

    A shallow embedding of the event handlers, the retry policy, the grouping
    helper and [syncDeployment], with the theorems that settle the
    specification's claims about them.

    Conventions of the embedding:
    - a Go pointer or a nilable map or slice is an [option]; [None] is [nil];
    - [reflect.DeepEqual] on such values is Rocq equality, decided by [decide];
    - a Go [(T, error)] result is a sum [T + Error]; a bare [error] is an
      [option Error];
    - the informer caches, the API client and the functions of other packages
      are fields of an environment record [Env], so every theorem holds for
      whatever they answer;
    - calls on external collaborators are recorded, in order, in a trace of
      [Effect]s next to the state of the work queue;
    - leveled logging ([klog]) and the diagnostic [fmt.Println] lines have no
      effect on any collaborator and are left out. *)

From stdpp Require Import gmap strings list fin_maps.
From Stdlib Require Import ZArith Ascii.

Open Scope string_scope.

(** ** Errors *)

(** Modelled from the spec: the error values of [k8s.io/apimachinery] are not
    under src/. An error carries the status reason it is tagged with (the
    empty string for a plain Go error), the cause types of its status details
    and its message. *)
Record Error := mkError {
  err_reason : string;
  err_causes : list string;
  err_message : string
}.

#[global] Instance Error_eq_dec : EqDecision Error.
Proof. solve_decision. Defined.

Definition Result (A : Type) : Type := A + Error.

Definition StatusReasonNotFound : string := "NotFound".
Definition NamespaceTerminatingCause : string := "NamespaceTerminating".

(** Modelled from the spec: [errors.IsNotFound] answers whether the error is
    tagged "not found"; a nil error is not. *)
Definition IsNotFound (err : option Error) : bool :=
  match err with
  | Some e => bool_decide (err_reason e = StatusReasonNotFound)
  | None => false
  end.

(** Modelled from the spec: [errors.HasStatusCause] answers whether the error
    is tagged with the given cause. *)
Definition HasStatusCause (e : Error) (name : string) : bool :=
  bool_decide (name ∈ err_causes e).

(** [fmt.Errorf]: a plain error, with no status reason and no cause. *)
Definition Errorf (msg : string) : Error := mkError "" [] msg.

(** ** API objects *)

Record OwnerReference := mkOwnerReference {
  ref_APIVersion : string;
  ref_Kind : string;
  ref_Name : string;
  ref_UID : string;
  ref_Controller : option bool;
  ref_BlockOwnerDeletion : option bool
}.

#[global] Instance OwnerReference_eq_dec : EqDecision OwnerReference.
Proof. solve_decision. Defined.

Record ObjectMeta := mkObjectMeta {
  Name : string;
  Namespace : string;
  UID : string;
  ResourceVersion : string;
  Generation : Z;
  DeletionTimestamp : option Z;
  Labels : option (gmap string string);
  OwnerReferences : list OwnerReference
}.

#[global] Instance ObjectMeta_eq_dec : EqDecision ObjectMeta.
Proof. solve_decision. Defined.

Record LabelSelectorRequirement := mkRequirement {
  req_Key : string;
  req_Operator : string;
  req_Values : option (list string)
}.

#[global] Instance LabelSelectorRequirement_eq_dec :
  EqDecision LabelSelectorRequirement.
Proof. solve_decision. Defined.

Record LabelSelector := mkLabelSelector {
  MatchLabels : option (gmap string string);
  MatchExpressions : option (list LabelSelectorRequirement)
}.

#[global] Instance LabelSelector_eq_dec : EqDecision LabelSelector.
Proof. solve_decision. Defined.

(** [labels.Selector], the compiled form of a [LabelSelector]. *)
Definition Selector : Type := list LabelSelectorRequirement.

Definition RecreateDeploymentStrategyType : string := "Recreate".
Definition RollingUpdateDeploymentStrategyType : string := "RollingUpdate".

Record DeploymentSpec := mkDeploymentSpec {
  spec_Selector : option LabelSelector;
  spec_StrategyType : string;
  spec_Paused : bool
}.

Record DeploymentStatus := mkDeploymentStatus {
  ObservedGeneration : Z;
  Conditions : list string
}.

Record Deployment := mkDeployment {
  d_meta : ObjectMeta;
  d_Spec : DeploymentSpec;
  d_Status : DeploymentStatus
}.

Record ReplicaSet := mkReplicaSet {
  rs_meta : ObjectMeta;
  rs_Replicas : option Z
}.

Record Pod := mkPod {
  pod_meta : ObjectMeta;
  pod_Phase : string
}.

#[global] Instance DeploymentSpec_eq_dec : EqDecision DeploymentSpec.
Proof. solve_decision. Defined.
#[global] Instance DeploymentStatus_eq_dec : EqDecision DeploymentStatus.
Proof. solve_decision. Defined.
#[global] Instance Deployment_eq_dec : EqDecision Deployment.
Proof. solve_decision. Defined.
#[global] Instance ReplicaSet_eq_dec : EqDecision ReplicaSet.
Proof. solve_decision. Defined.
#[global] Instance Pod_eq_dec : EqDecision Pod.
Proof. solve_decision. Defined.

(** The [metav1.Object] interface: every API object exposes its metadata. *)
Class Object (A : Type) := objectMeta : A → ObjectMeta.

#[global] Instance Deployment_Object : Object Deployment := d_meta.
#[global] Instance ReplicaSet_Object : Object ReplicaSet := rs_meta.
#[global] Instance Pod_Object : Object Pod := pod_meta.

(** What an informer hands to a delete handler: the object itself, or a
    [cache.DeletedFinalStateUnknown] tombstone wrapping some object. *)
Inductive Obj :=
| ObjDeployment (d : Deployment)
| ObjReplicaSet (rs : ReplicaSet)
| ObjPod (pod : Pod)
| ObjTombstone (key : string) (inner : Obj)
| ObjOther.

(** Modelled from the spec: whether an owner reference is the controller
    owner-reference ([Controller] set and true). *)
Definition isController (r : OwnerReference) : bool :=
  match ref_Controller r with
  | Some true => true
  | _ => false
  end.

(** Modelled from the spec: [metav1.GetControllerOf] is not under src/. The
    controller owner-reference of an object is its first owner reference
    flagged as controller, if there is one. *)
Definition GetControllerOf {A} `{Object A} (o : A) : option OwnerReference :=
  find isController (OwnerReferences (objectMeta o)).

(** The unique-id the controller owner-reference of an object points to. *)
Definition controllerUID {A} `{Object A} (o : A) : option string :=
  ref_UID <$> GetControllerOf o.

(** [controllerKind.Kind] and [apps.SchemeGroupVersion.WithKind("ReplicaSet").Kind]. *)
Definition controllerKind_Kind : string := "Deployment".
Definition replicaSetKind : string := "ReplicaSet".

(** [const maxRetries = 15]. *)
Definition maxRetries : nat := 15.

(** ** The work queue *)

(** Modelled from the spec: [k8s.io/client-go/util/workqueue] is not under
    src/. Section 4.1: [add] is idempotent, [forget] clears the retry count,
    [addRateLimited] requeues after a delay of 5ms doubled per attempt and
    counts the attempt, [numRequeues] returns the attempt counter. *)
Record Queue := mkQueue {
  q_items : list string;
  q_delayed : list (string * nat);
  q_requeues : gmap string nat
}.

(** Modelled from the spec: [numRequeues(id)] returns the attempt counter. *)
Definition NumRequeues (key : string) (q : Queue) : nat :=
  default 0%nat (q_requeues q !! key).

(** Modelled from the spec: [add(id)] is idempotent, it inserts no duplicate
    entry. *)
Definition queue_Add (key : string) (q : Queue) : Queue :=
  if bool_decide (key ∈ q_items q) then q
  else mkQueue (q_items q ++ [key]) (q_delayed q) (q_requeues q).

(** Modelled from the spec: the delay of [addRateLimited], base 5ms, doubling
    per attempt. *)
Definition backoff_ms (attempts : nat) : nat := (5 * 2 ^ attempts)%nat.

(** Modelled from the spec: [addRateLimited(id)] requeues after the delay the
    attempt counter of the id decides, and counts the attempt. *)
Definition queue_AddRateLimited (key : string) (q : Queue) : Queue :=
  mkQueue (q_items q)
          (q_delayed q ++ [(key, backoff_ms (NumRequeues key q))])
          (<[key := S (NumRequeues key q)]> (q_requeues q)).

(** Modelled from the spec: [forget(id)] clears the retry count. *)
Definition queue_Forget (key : string) (q : Queue) : Queue :=
  mkQueue (q_items q) (q_delayed q) (delete key (q_requeues q)).

Definition emptyQueue : Queue := mkQueue [] [] ∅.

(** ** Effects on the collaborators, and the state they are recorded in *)

(** [map[types.UID][]*v1.Pod]. *)
Abbreviation PodMap := (gmap string (list Pod)).

Inductive Effect :=
(* cached reads *)
| EDeploymentGet (namespace name : string)
| EReplicaSetGet (namespace name : string)
| EReplicaSetList (namespace : string)
| EPodList (namespace : string) (selector : Selector)
| EGetDeploymentsForReplicaSet (rs : ReplicaSet)
(* the API client and the controller-reference manager *)
| EListReplicaSets (d : Deployment)
| EClaimReplicaSets (d : Deployment) (rsList : list ReplicaSet)
| EUpdateStatus (d : Deployment)
(* the event recorder and the process-wide error handler *)
| EEventf (d : Deployment) (eventtype reason message : string)
| EHandleError (err : Error)
(* the work queue *)
| EQueueAdd (key : string)
| EQueueAddRateLimited (key : string)
| EQueueForget (key : string).

Record World := mkWorld {
  w_queue : Queue;
  w_trace : list Effect
}.

(** The controller's methods run in a state monad over [World]. *)
Definition M (A : Type) : Type := World → A * World.

Definition ret {A} (a : A) : M A := λ w, (a, w).

Definition bind {A B} (m : M A) (k : A → M B) : M B :=
  λ w, let (a, w') := m w in k a w'.

Notation "'let*' x ':=' m 'in' k" := (bind m (λ x, k))
  (at level 10, x pattern, m at level 100, k at level 200).

Definition emit (e : Effect) : M unit :=
  λ w, (tt, mkWorld (w_queue w) (w_trace w ++ [e])).

Definition onQueue (f : Queue → Queue) : M unit :=
  λ w, (tt, mkWorld (f (w_queue w)) (w_trace w)).

(** Result and final state of a run, and the effects the run added. *)
Definition result {A} (m : M A) (w : World) : A := fst (m w).
Definition final {A} (m : M A) (w : World) : World := snd (m w).

(** [for _, x := range xs { body x }]. *)
Fixpoint forEach {A} (body : A → M unit) (xs : list A) : M unit :=
  match xs with
  | [] => ret tt
  | x :: xs' => let* _ := body x in forEach body xs'
  end.

(** ** The environment: caches, client and the functions of other files *)

Record Env := mkEnv {
  (* dLister, rsLister, podLister *)
  env_dLister_Get : string → string → Result Deployment;
  env_rsLister_Get : string → string → Result ReplicaSet;
  env_rsLister_List : string → Result (list ReplicaSet);
  env_podLister_List : string → Selector → Result (list Pod);
  (* k8s.io/apimachinery and k8s.io/client-go *)
  LabelSelectorAsSelector : option LabelSelector → Result Selector;
  SplitMetaNamespaceKey : string → Result (string * string);
  (* dc.client *)
  env_client_Get : string → string → Result Deployment;
  env_client_UpdateStatus : Deployment → Result Deployment;
  (* pkg/controller/deployment/util *)
  env_GetDeploymentsForReplicaSet : ReplicaSet → Result (list Deployment);
  env_ListReplicaSets : Deployment → Result (list ReplicaSet);
  (* pkg/controller: the controller-reference manager *)
  env_ClaimReplicaSets :
    Deployment → Selector → Result Deployment → list ReplicaSet →
    Result (list ReplicaSet);
  (* the other files of the package; they are methods of the controller,
     so they run in [M]; checkPausedConditions may change the conditions of
     the deployment it is given and hands it back *)
  getRollbackTo : Deployment → option Z;
  syncStatusOnly : Deployment → list ReplicaSet → M (option Error);
  checkPausedConditions : Deployment → M (Deployment * option Error);
  sync : Deployment → list ReplicaSet → M (option Error);
  rollback : Deployment → list ReplicaSet → M (option Error);
  isScalingEvent : Deployment → list ReplicaSet → M (Result bool);
  rolloutRecreate : Deployment → list ReplicaSet → PodMap → M (option Error);
  rolloutRolling : Deployment → list ReplicaSet → M (option Error)
}.

(** ** The controller *)

(** Modelled from the spec: [controller.KeyFunc] is not under src/. The
    identifier of a workload is its namespace-qualified name; a typed
    Deployment always has one. *)
Definition KeyFunc (d : Deployment) : Result string :=
  inl (if bool_decide (Namespace (d_meta d) = "") then Name (d_meta d)
       else Namespace (d_meta d) ++ "/" ++ Name (d_meta d)).

Definition EventTypeWarning : string := "Warning".

Definition selectingAllMessage : string :=
  "This deployment is selecting all pods. A non-empty selector is required.".

(** [metav1.LabelSelector{}]. *)
Definition everything : LabelSelector := mkLabelSelector None None.

Definition setObservedGeneration (d : Deployment) (g : Z) : Deployment :=
  mkDeployment (d_meta d) (d_Spec d)
               (mkDeploymentStatus g (Conditions (d_Status d))).

Section Controller.

Variable E : Env.

(** *** Collaborator calls: the answer comes from [E], the call is traced *)

Definition dLister_Get (namespace name : string) : M (Result Deployment) :=
  let* _ := emit (EDeploymentGet namespace name) in
  ret (env_dLister_Get E namespace name).

Definition rsLister_Get (namespace name : string) : M (Result ReplicaSet) :=
  let* _ := emit (EReplicaSetGet namespace name) in
  ret (env_rsLister_Get E namespace name).

Definition rsLister_List (namespace : string) : M (Result (list ReplicaSet)) :=
  let* _ := emit (EReplicaSetList namespace) in
  ret (env_rsLister_List E namespace).

Definition podLister_List (namespace : string) (selector : Selector)
  : M (Result (list Pod)) :=
  let* _ := emit (EPodList namespace selector) in
  ret (env_podLister_List E namespace selector).

Definition GetDeploymentsForReplicaSet (rs : ReplicaSet)
  : M (Result (list Deployment)) :=
  let* _ := emit (EGetDeploymentsForReplicaSet rs) in
  ret (env_GetDeploymentsForReplicaSet E rs).

Definition ListReplicaSets (d : Deployment) : M (Result (list ReplicaSet)) :=
  let* _ := emit (EListReplicaSets d) in
  ret (env_ListReplicaSets E d).

Definition ClaimReplicaSets (d : Deployment) (selector : Selector)
    (canAdopt : Result Deployment) (rsList : list ReplicaSet)
  : M (Result (list ReplicaSet)) :=
  let* _ := emit (EClaimReplicaSets d rsList) in
  ret (env_ClaimReplicaSets E d selector canAdopt rsList).

Definition UpdateStatus (d : Deployment) : M (Result Deployment) :=
  let* _ := emit (EUpdateStatus d) in
  ret (env_client_UpdateStatus E d).

Definition Eventf (d : Deployment) (eventtype reason message : string)
  : M unit :=
  emit (EEventf d eventtype reason message).

Definition HandleError (err : Error) : M unit := emit (EHandleError err).

Definition queueAdd (key : string) : M unit :=
  let* _ := emit (EQueueAdd key) in onQueue (queue_Add key).

Definition queueAddRateLimited (key : string) : M unit :=
  let* _ := emit (EQueueAddRateLimited key) in
  onQueue (queue_AddRateLimited key).

Definition queueForget (key : string) : M unit :=
  let* _ := emit (EQueueForget key) in onQueue (queue_Forget key).

Definition queueNumRequeues (key : string) : M nat :=
  λ w, (NumRequeues key (w_queue w), w).

(** *** Enqueueing *)

Definition enqueue (deployment : Deployment) : M unit :=
  match KeyFunc deployment with
  | inr err =>
      HandleError (Errorf ("couldn't get key for object: " ++ err_message err))
  | inl key => queueAdd key
  end.

(** [dc.enqueueDeployment = dc.enqueue], set by [NewDeploymentController]. *)
Definition enqueueDeployment : Deployment → M unit := enqueue.

(** *** Owner resolution *)

Definition resolveControllerRef (namespace : string)
    (controllerRef : OwnerReference) : M (option Deployment) :=
  if bool_decide (ref_Kind controllerRef ≠ controllerKind_Kind) then ret None
  else
    let* r := dLister_Get namespace (ref_Name controllerRef) in
    match r with
    | inr _ => ret None
    | inl d =>
        if bool_decide (UID (d_meta d) ≠ ref_UID controllerRef) then ret None
        else ret (Some d)
    end.

Definition getDeploymentForPod (pod : Pod) : M (option Deployment) :=
  match GetControllerOf pod with
  | None => ret None
  | Some controllerRef =>
      if bool_decide (ref_Kind controllerRef ≠ replicaSetKind) then ret None
      else
        let* r := rsLister_Get (Namespace (pod_meta pod))
                               (ref_Name controllerRef) in
        match r with
        | inr _ => ret None
        | inl rs =>
            if bool_decide (UID (rs_meta rs) ≠ ref_UID controllerRef)
            then ret None
            else
              match GetControllerOf rs with
              | None => ret None
              | Some controllerRef' =>
                  resolveControllerRef (Namespace (rs_meta rs)) controllerRef'
              end
        end
  end.

(** *** ReplicaSet handlers *)

Definition getDeploymentsForReplicaSet (rs : ReplicaSet)
  : M (list Deployment) :=
  let* r := GetDeploymentsForReplicaSet rs in
  match r with
  | inr _ => ret []
  | inl deployments =>
      if bool_decide (length deployments = 0%nat) then ret []
      else ret deployments
  end.

Definition deleteReplicaSet (obj : Obj) : M unit :=
  let unwrapped : Result ReplicaSet :=
    match obj with
    | ObjReplicaSet rs => inl rs
    | ObjTombstone _ (ObjReplicaSet rs) => inl rs
    | ObjTombstone _ _ =>
        inr (Errorf "tombstone contained object that is not a ReplicaSet")
    | _ => inr (Errorf "couldn't get object from tombstone")
    end in
  match unwrapped with
  | inr err => HandleError err
  | inl rs =>
      match GetControllerOf rs with
      | None => ret tt
      | Some controllerRef =>
          let* d := resolveControllerRef (Namespace (rs_meta rs)) controllerRef in
          match d with
          | None => ret tt
          | Some d => enqueueDeployment d
          end
      end
  end.

Definition addReplicaSet (rs : ReplicaSet) : M unit :=
  match DeletionTimestamp (rs_meta rs) with
  | Some _ => deleteReplicaSet (ObjReplicaSet rs)
  | None =>
      match GetControllerOf rs with
      | Some controllerRef =>
          let* d := resolveControllerRef (Namespace (rs_meta rs)) controllerRef in
          match d with
          | None => ret tt
          | Some d => enqueueDeployment d
          end
      | None =>
          let* ds := getDeploymentsForReplicaSet rs in
          match ds with
          | [] => ret tt
          | _ => forEach enqueueDeployment ds
          end
      end
  end.

Definition updateReplicaSet (oldRS curRS : ReplicaSet) : M unit :=
  if bool_decide (ResourceVersion (rs_meta curRS)
                  = ResourceVersion (rs_meta oldRS)) then ret tt
  else
    let curControllerRef := GetControllerOf curRS in
    let oldControllerRef := GetControllerOf oldRS in
    let controllerRefChanged :=
      bool_decide (curControllerRef ≠ oldControllerRef) in
    let* _ :=
      match oldControllerRef with
      | Some oldRef =>
          if controllerRefChanged then
            let* d := resolveControllerRef (Namespace (rs_meta oldRS)) oldRef in
            match d with
            | Some d => enqueueDeployment d
            | None => ret tt
            end
          else ret tt
      | None => ret tt
      end in
    match curControllerRef with
    | Some curRef =>
        let* d := resolveControllerRef (Namespace (rs_meta curRS)) curRef in
        match d with
        | None => ret tt
        | Some d => enqueueDeployment d
        end
    | None =>
        let labelChanged :=
          bool_decide (Labels (rs_meta curRS) ≠ Labels (rs_meta oldRS)) in
        if labelChanged || controllerRefChanged then
          let* ds := getDeploymentsForReplicaSet curRS in
          match ds with
          | [] => ret tt
          | _ => forEach enqueueDeployment ds
          end
        else ret tt
    end.

(** *** The grouping helper *)

(** [for _, rs := range rsList { podMap[rs.UID] = []*v1.Pod{} }]. *)
Definition initPodMap (rsList : list ReplicaSet) : PodMap :=
  foldl (λ podMap rs, <[UID (rs_meta rs) := []]> podMap) ∅ rsList.

(** The body of the loop over the listed pods. *)
Definition groupPod (podMap : PodMap) (pod : Pod) : PodMap :=
  match GetControllerOf pod with
  | None => podMap
  | Some controllerRef =>
      match podMap !! ref_UID controllerRef with
      | Some podList => <[ref_UID controllerRef := (podList ++ [pod])%list]> podMap
      | None => podMap
      end
  end.

Definition getPodMapForDeployment (d : Deployment) (rsList : list ReplicaSet)
  : M (Result PodMap) :=
  match LabelSelectorAsSelector E (spec_Selector (d_Spec d)) with
  | inr err => ret (inr err)
  | inl selector =>
      let* r := podLister_List (Namespace (d_meta d)) selector in
      match r with
      | inr err => ret (inr err)
      | inl pods => ret (inl (foldl groupPod (initPodMap rsList) pods))
      end
  end.

(** [for _, podList := range podMap { numPods += len(podList) }]. *)
Definition numPods (podMap : PodMap) : nat :=
  map_fold (λ _ podList n, (n + length podList)%nat) 0%nat podMap.

(** *** The Pod delete handler *)

Definition deletePod (obj : Obj) : M unit :=
  let unwrapped : Result Pod :=
    match obj with
    | ObjPod pod => inl pod
    | ObjTombstone _ (ObjPod pod) => inl pod
    | ObjTombstone _ _ =>
        inr (Errorf "tombstone contained object that is not a pod")
    | _ => inr (Errorf "couldn't get object from tombstone")
    end in
  match unwrapped with
  | inr err => HandleError err
  | inl pod =>
      let* d := getDeploymentForPod pod in
      match d with
      | None => ret tt
      | Some d =>
          if bool_decide (spec_StrategyType (d_Spec d)
                          = RecreateDeploymentStrategyType) then
            let* r := ListReplicaSets d in
            match r with
            | inr _ => ret tt
            | inl rsList =>
                let* r := getPodMapForDeployment d rsList in
                match r with
                | inr _ => ret tt
                | inl podMap =>
                    if bool_decide (numPods podMap = 0%nat)
                    then enqueueDeployment d
                    else ret tt
                end
            end
          else ret tt
      end
  end.

(** *** The retry policy *)

(** [cache.SplitMetaNamespaceKey] only feeds the log lines here. *)
Definition handleErr (err : option Error) (key : string) : M unit :=
  match err with
  | None => queueForget key
  | Some e =>
      if HasStatusCause e NamespaceTerminatingCause then queueForget key
      else
        let* n := queueNumRequeues key in
        if bool_decide (n < maxRetries)%nat then queueAddRateLimited key
        else
          let* _ := HandleError e in
          queueForget key
  end.

(** *** The sync *)

Definition getReplicaSetsForDeployment (d : Deployment)
  : M (Result (list ReplicaSet)) :=
  let* r := rsLister_List (Namespace (d_meta d)) in
  match r with
  | inr err => ret (inr err)
  | inl rsList =>
      match LabelSelectorAsSelector E (spec_Selector (d_Spec d)) with
      | inr err =>
          ret (inr (Errorf ("deployment " ++ Namespace (d_meta d) ++ "/"
                            ++ Name (d_meta d)
                            ++ " has invalid label selector: "
                            ++ err_message err)))
      | inl deploymentSelector =>
          (* what the closure handed to RecheckDeletionTimestamp returns *)
          let canAdopt : Result Deployment :=
            match env_client_Get E (Namespace (d_meta d)) (Name (d_meta d)) with
            | inr err => inr err
            | inl fresh =>
                if bool_decide (UID (d_meta fresh) ≠ UID (d_meta d))
                then inr (Errorf ("original Deployment "
                                  ++ Namespace (d_meta d) ++ "/"
                                  ++ Name (d_meta d) ++ " is gone"))
                else inl fresh
            end in
          ClaimReplicaSets d deploymentSelector canAdopt rsList
      end
  end.

Definition syncDeployment (key : string) : M (option Error) :=
  match SplitMetaNamespaceKey E key with
  | inr err => ret (Some err)
  | inl (namespace, name) =>
      let* r := dLister_Get namespace name in
      match r with
      | inr err =>
          if IsNotFound (Some err) then ret None else ret (Some err)
      | inl deployment =>
          let d := deployment in (* DeepCopy *)
          if bool_decide (spec_Selector (d_Spec d) = Some everything) then
            let* _ := Eventf d EventTypeWarning "SelectingAll"
                             selectingAllMessage in
            if bool_decide (ObservedGeneration (d_Status d)
                            < Generation (d_meta d))%Z then
              let d := setObservedGeneration d (Generation (d_meta d)) in
              let* _ := UpdateStatus d in
              ret None
            else ret None
          else
            let* r := getReplicaSetsForDeployment d in
            match r with
            | inr err => ret (Some err)
            | inl rsList =>
                let* r := getPodMapForDeployment d rsList in
                match r with
                | inr err => ret (Some err)
                | inl podMap =>
                    match DeletionTimestamp (d_meta d) with
                    | Some _ => syncStatusOnly E d rsList
                    | None =>
                        let* (d, err) := checkPausedConditions E d in
                        match err with
                        | Some err => ret (Some err)
                        | None =>
                            if spec_Paused (d_Spec d) then sync E d rsList
                            else
                              match getRollbackTo E d with
                              | Some _ => rollback E d rsList
                              | None =>
                                  let* r := isScalingEvent E d rsList in
                                  match r with
                                  | inr err => ret (Some err)
                                  | inl scalingEvent =>
                                      if (scalingEvent : bool) then sync E d rsList
                                      else if bool_decide
                                                (spec_StrategyType (d_Spec d)
                                                 = RecreateDeploymentStrategyType)
                                      then rolloutRecreate E d rsList podMap
                                      else if bool_decide
                                                (spec_StrategyType (d_Spec d)
                                                 = RollingUpdateDeploymentStrategyType)
                                      then rolloutRolling E d rsList
                                      else ret (Some (Errorf
                                             ("unexpected deployment strategy type: "
                                              ++ spec_StrategyType (d_Spec d))))
                                  end
                              end
                        end
                    end
                end
            end
      end
  end.

(** One turn of a worker once a key has been dequeued:
    [err := dc.syncHandler(key); dc.handleErr(err, key)]. *)
Definition processKey (key : string) : M unit :=
  let* err := syncDeployment key in
  handleErr err key.

End Controller.

(** ** A concrete environment, for running the controller on examples *)

Module Fixture.

Definition meta (ns name uid rv : string) (gen : Z)
    (owners : list OwnerReference) : ObjectMeta :=
  mkObjectMeta name ns uid rv gen None None owners.

Definition controllerRef (kind name uid : string) : OwnerReference :=
  mkOwnerReference "apps/v1" kind name uid (Some true) (Some true).

Definition notFound (name : string) : Error :=
  mkError StatusReasonNotFound [] (name ++ " not found").

Definition conflict : Error :=
  mkError "Conflict" [] "the object has been modified".

Definition namespaceTerminating : Error :=
  mkError "Forbidden" [NamespaceTerminatingCause] "namespace is terminating".

Definition lookup {A} `{Object A} (xs : list A) (ns name : string) : Result A :=
  match find (λ x, bool_decide (Namespace (objectMeta x) = ns
                                ∧ Name (objectMeta x) = name)) xs with
  | Some x => inl x
  | None => inr (notFound name)
  end.

Definition inNamespace {A} `{Object A} (ns : string) (xs : list A) : list A :=
  filter (λ x, Namespace (objectMeta x) = ns) xs.

(** [strings.Split(key, "/")]. *)
Fixpoint splitSlash (s : string) : list string :=
  match s with
  | EmptyString => [EmptyString]
  | String c s' =>
      if bool_decide (c = "/"%char) then EmptyString :: splitSlash s'
      else match splitSlash s' with
           | [] => [String c EmptyString]
           | p :: ps => String c p :: ps
           end
  end.

Definition split (key : string) : Result (string * string) :=
  match splitSlash key with
  | [name] => inl ("", name)
  | [ns; name] => inl (ns, name)
  | _ => inr (Errorf ("unexpected key format: " ++ key))
  end.

(** The caches hold [ds], [rss] and [pods]; selectors compile to nothing and
    every listing answers with the whole namespace; status updates answer
    [updateStatus]; the functions of the other files succeed at once. *)
Definition env (ds : list Deployment) (rss : list ReplicaSet)
    (pods : list Pod) (updateStatus : Deployment → Result Deployment) : Env :=
  {| env_dLister_Get := lookup ds;
     env_rsLister_Get := lookup rss;
     env_rsLister_List := λ ns, inl (inNamespace ns rss);
     env_podLister_List := λ ns _, inl (inNamespace ns pods);
     LabelSelectorAsSelector := λ _, inl [];
     SplitMetaNamespaceKey := split;
     env_client_Get := lookup ds;
     env_client_UpdateStatus := updateStatus;
     env_GetDeploymentsForReplicaSet := λ rs,
       inl (inNamespace (Namespace (rs_meta rs)) ds);
     env_ListReplicaSets := λ d,
       inl (filter (λ rs, controllerUID rs = Some (UID (d_meta d))) rss);
     env_ClaimReplicaSets := λ _ _ _ rsList, inl rsList;
     getRollbackTo := λ _, None;
     syncStatusOnly := λ _ _, ret None;
     checkPausedConditions := λ d, ret (d, None);
     sync := λ _ _, ret None;
     rollback := λ _ _, ret None;
     isScalingEvent := λ _ _, ret (inl false);
     rolloutRecreate := λ _ _ _, ret None;
     rolloutRolling := λ _ _, ret None |}.

Definition w0 : World := mkWorld emptyQueue [].

(** A Recreate deployment "web", its replica set and one pod of it. *)
Definition web : Deployment :=
  mkDeployment (meta "default" "web" "d-1" "10" 3 [])
    (mkDeploymentSpec (Some (mkLabelSelector (Some {["app" := "web"]}) None))
                      RecreateDeploymentStrategyType false)
    (mkDeploymentStatus 3 []).

Definition webRS : ReplicaSet :=
  mkReplicaSet (meta "default" "web-1" "rs-1" "11" 1
                     [controllerRef "Deployment" "web" "d-1"]) (Some 1%Z).

Definition webPod : Pod :=
  mkPod (meta "default" "web-1-a" "p-1" "12" 1
              [controllerRef "ReplicaSet" "web-1" "rs-1"]) "Running".

(** A deployment that selects everything and whose status is stale. *)
Definition selectAll : Deployment :=
  mkDeployment (meta "default" "all" "d-2" "20" 3 [])
    (mkDeploymentSpec (Some everything) RollingUpdateDeploymentStrategyType false)
    (mkDeploymentStatus 2 []).

(** A second replica set of "web", with no pod. *)
Definition idleRS : ReplicaSet :=
  mkReplicaSet (meta "default" "web-2" "rs-2" "13" 1
                     [controllerRef "Deployment" "web" "d-1"]) (Some 0%Z).

(** A pod whose controller is a Job that carries the unique-id of [webRS]. *)
Definition jobPod : Pod :=
  mkPod (meta "default" "job-a" "p-9" "30" 1
              [controllerRef "Job" "web-1" "rs-1"]) "Running".

(** Two orphan versions of the ReplicaSet "web-1". *)
Definition releasedRS : ReplicaSet :=
  mkReplicaSet (meta "default" "web-1" "rs-1" "14" 1 []) (Some 1%Z).
Definition releasedSameVersionRS : ReplicaSet :=
  mkReplicaSet (meta "default" "web-1" "rs-1" "11" 1 []) (Some 1%Z).

(** [webRS] as a new version owned by the deployment "all", and the released
    [webRS] as a new version with an empty, non-nil label map. *)
Definition adoptedByAllRS : ReplicaSet :=
  mkReplicaSet (meta "default" "web-1" "rs-1" "16" 1
                     [controllerRef "Deployment" "all" "d-2"]) (Some 1%Z).
Definition relabelledRS : ReplicaSet :=
  mkReplicaSet (mkObjectMeta "web-1" "default" "rs-1" "17" 1 None (Some ∅) [])
               (Some 1%Z).

(** A replica set whose controller reference names a deployment that is not
    in the cache. *)
Definition danglingRS : ReplicaSet :=
  mkReplicaSet (meta "default" "gone-1" "rs-7" "15" 1
                     [controllerRef "Deployment" "gone" "d-7"]) (Some 1%Z).

(** The usual cluster; the same with no pod left; one where the only pod is
    [jobPod]; one whose status updates are rejected. *)
Definition cluster : Env := env [web; selectAll] [webRS; idleRS] [webPod] inl.
Definition drained : Env := env [web; selectAll] [webRS; idleRS] [] inl.
Definition withJob : Env := env [web] [webRS] [jobPod] inl.
Definition rejecting : Env :=
  env [web; selectAll] [webRS] [webPod] (λ _, inr conflict).

End Fixture.

(** ** Vocabulary of the properties *)

(** The effects a run adds to the trace it starts from. *)
Definition effects {A} (m : M A) (w : World) : list Effect :=
  drop (length (w_trace w)) (w_trace (final m w)).

(** An enqueue is any call that puts a key (back) into the work queue. *)
Definition isEnqueue (e : Effect) : bool :=
  match e with
  | EQueueAdd _ | EQueueAddRateLimited _ => true
  | _ => false
  end.

(** The calls that list, claim or change ReplicaSets. *)
Definition touchesReplicaSets (e : Effect) : bool :=
  match e with
  | EReplicaSetGet _ _ | EReplicaSetList _ | EListReplicaSets _
  | EClaimReplicaSets _ _ | EGetDeploymentsForReplicaSet _ => true
  | _ => false
  end.

(** [w'] is [w] after some more effects, none of which took a key out of the
    queue. *)
Definition extends (w w' : World) : Prop :=
  (∀ key, key ∈ q_items (w_queue w) → key ∈ q_items (w_queue w'))
  ∧ ∃ rest, w_trace w' = (w_trace w ++ rest)%list.

(** The unique-ids of a list of ReplicaSets. *)
Definition uidsOf (rsList : list ReplicaSet) : list string :=
  (λ rs, UID (rs_meta rs)) <$> rsList.

(** [n] failing syncs of the same key in a row. *)
Fixpoint failures (n : nat) (e : Error) (key : string) : M unit :=
  match n with
  | O => ret tt
  | S n' => let* _ := failures n' e key in handleErr (Some e) key
  end.

(** *** Proof automation *)

(** Unfold the monad and the traced collaborator calls in a hypothesis. *)
Ltac run_monad_in H :=
  unfold result, final, effects, bind, ret, emit, onQueue,
    dLister_Get, rsLister_Get, rsLister_List, podLister_List,
    GetDeploymentsForReplicaSet, ListReplicaSets, ClaimReplicaSets,
    UpdateStatus, Eventf, HandleError, queueAdd, queueAddRateLimited,
    queueForget, queueNumRequeues in H;
  simpl in H.

(** No effect of the list in [Hin] is the enqueue [Henq] speaks of. *)
Ltac not_enqueued Hin Henq :=
  repeat (apply elem_of_cons in Hin as [-> | Hin]; [discriminate Henq |]);
  by apply elem_of_nil in Hin.

(** A list of effects cut out of a trace holds no enqueue. *)
Ltac no_enqueue :=
  rewrite ?drop_app_length, ?drop_all; repeat constructor.

(** ** The Deployment handlers and the rate-limited enqueue *)

Definition addDeployment (d : Deployment) : M unit := enqueueDeployment d.

Definition updateDeployment (oldD curD : Deployment) : M unit :=
  enqueueDeployment curD.

Definition deleteDeployment (obj : Obj) : M unit :=
  let unwrapped : Result Deployment :=
    match obj with
    | ObjDeployment d => inl d
    | ObjTombstone _ (ObjDeployment d) => inl d
    | ObjTombstone _ _ =>
        inr (Errorf "tombstone contained object that is not a Deployment")
    | _ => inr (Errorf "couldn't get object from tombstone")
    end in
  match unwrapped with
  | inr err => HandleError err
  | inl d => enqueueDeployment d
  end.

Definition enqueueRateLimited (deployment : Deployment) : M unit :=
  match KeyFunc deployment with
  | inr err =>
      HandleError (Errorf ("couldn't get key for object: " ++ err_message err))
  | inl key => queueAddRateLimited key
  end.

(** ** More vocabulary *)

(** What an event handler may do: read the caches, list through the client,
    report an error to the process-wide handler, add a key to the queue. *)
Definition handlerEffect (e : Effect) : bool :=
  match e with
  | EDeploymentGet _ _ | EReplicaSetGet _ _ | EPodList _ _
  | EGetDeploymentsForReplicaSet _ | EListReplicaSets _
  | EHandleError _ | EQueueAdd _ => true
  | _ => false
  end.

(** [w'] is [w] after a handler ran: only [handlerEffect]s were added, the
    delayed list and the attempt counters are the same, and the queue has no
    duplicate if it had none. *)
Definition handlerStep (w w' : World) : Prop :=
  q_delayed (w_queue w') = q_delayed (w_queue w)
  ∧ q_requeues (w_queue w') = q_requeues (w_queue w)
  ∧ (NoDup (q_items (w_queue w)) → NoDup (q_items (w_queue w')))
  ∧ ∃ rest, w_trace w' = (w_trace w ++ rest)%list
            ∧ Forall (λ e, handlerEffect e = true) rest.

(** The key under which a deployment is queued. *)
Definition keyOf (d : Deployment) : string :=
  match KeyFunc d with
  | inl key => key
  | inr _ => ""
  end.

(** [n] turns of a worker on the same key. *)
Fixpoint turns (E : Env) (n : nat) (key : string) : M unit :=
  match n with
  | O => ret tt
  | S n' => let* _ := turns E n' key in processKey E key
  end.

(** Whether a pod's controller owner-reference points to one of [rsList]. *)
Definition ownedByOneOf (rsList : list ReplicaSet) (pod : Pod) : Prop :=
  ∃ uid, controllerUID pod = Some uid ∧ uid ∈ uidsOf rsList.

#[global] Instance ownedByOneOf_dec rsList pod :
  Decision (ownedByOneOf rsList pod).
Proof.
  unfold ownedByOneOf. destruct (controllerUID pod) as [uid |].
  - destruct (decide (uid ∈ uidsOf rsList)) as [Hin | Hnin].
    + left. by exists uid.
    + right. intros (uid' & [= <-] & ?). done.
  - right. by intros (uid' & ? & _).
Defined.

(** The call that looks for Deployments that could adopt an orphan. *)
Definition isOrphanMatching (e : Effect) : bool :=
  match e with
  | EGetDeploymentsForReplicaSet _ => true
  | _ => false
  end.

(** [w'] is [w] after more effects, all of which satisfy [P]. *)
Definition adds (P : Effect → bool) (w w' : World) : Prop :=
  ∃ rest, w_trace w' = (w_trace w ++ rest)%list
          ∧ Forall (λ e, P e = true) rest.

(** The effects of enqueueing each deployment of a list, in order. *)
Definition enqueues (ds : list Deployment) : list Effect :=
  (λ d, EQueueAdd (keyOf d)) <$> ds.

(** What [getDeploymentsForReplicaSet] returns. *)
Definition matching (E : Env) (rs : ReplicaSet) : list Deployment :=
  match env_GetDeploymentsForReplicaSet E rs with
  | inl ds => ds
  | inr _ => []
  end.

(** The world a sync is in once it has looked the deployment up, claimed
    its ReplicaSets and grouped its pods. *)
Definition prepared (E : Env) (namespace name : string) (d : Deployment)
    (rsList : list ReplicaSet) (w : World) : World :=
  final (getPodMapForDeployment E d rsList)
    (final (getReplicaSetsForDeployment E d)
       (final (dLister_Get E namespace name) w)).

(** The preparatory calls of a sync. *)
Definition preparation (e : Effect) : bool :=
  match e with
  | EDeploymentGet _ _ | EReplicaSetList _ | EClaimReplicaSets _ _
  | EPodList _ _ => true
  | _ => false
  end.

(** ** More fixtures, for the paths of the sync *)

Module Scenario.

Import Fixture.

Definition withSelector (name uid : string) (deleted : option Z)
    (strategy : string) (paused : bool) : Deployment :=
  mkDeployment (mkObjectMeta name "default" uid "40" 3 deleted None [])
    (mkDeploymentSpec (Some (mkLabelSelector (Some {["app" := name]}) None))
                      strategy paused)
    (mkDeploymentStatus 3 []).

(** A deployment being deleted, a paused one, one with a strategy that does
    not exist, and a plain rolling one. *)
Definition going : Deployment :=
  withSelector "going" "d-10" (Some 100%Z) RollingUpdateDeploymentStrategyType
               false.
Definition held : Deployment :=
  withSelector "held" "d-11" None RollingUpdateDeploymentStrategyType true.
Definition odd : Deployment :=
  withSelector "odd" "d-12" None "BlueGreen" false.
Definition rolling : Deployment :=
  withSelector "rolling" "d-13" None RollingUpdateDeploymentStrategyType false.

(** [base], except that the routines of the other files leave a mark in the
    list of conditions they return as an error message, so that one can see
    which of them ran; a rollback is pending and a scaling event is under
    way as told. *)
Definition marking (base : Env) (pendingRollback : option Z)
    (scaling : bool) : Env :=
  {| env_dLister_Get := env_dLister_Get base;
     env_rsLister_Get := env_rsLister_Get base;
     env_rsLister_List := env_rsLister_List base;
     env_podLister_List := env_podLister_List base;
     LabelSelectorAsSelector := LabelSelectorAsSelector base;
     SplitMetaNamespaceKey := SplitMetaNamespaceKey base;
     env_client_Get := env_client_Get base;
     env_client_UpdateStatus := env_client_UpdateStatus base;
     env_GetDeploymentsForReplicaSet := env_GetDeploymentsForReplicaSet base;
     env_ListReplicaSets := env_ListReplicaSets base;
     env_ClaimReplicaSets := env_ClaimReplicaSets base;
     getRollbackTo := λ _, pendingRollback;
     syncStatusOnly := λ _ _, ret (Some (Errorf "syncStatusOnly ran"));
     checkPausedConditions := λ d, ret (d, None);
     sync := λ _ _, ret (Some (Errorf "sync ran"));
     rollback := λ _ _, ret (Some (Errorf "rollback ran"));
     isScalingEvent := λ _ _, ret (inl scaling);
     rolloutRecreate := λ _ _ _, ret (Some (Errorf "rolloutRecreate ran"));
     rolloutRolling := λ _ _, ret (Some (Errorf "rolloutRolling ran")) |}.

Definition world : Env :=
  env [web; going; held; odd; rolling] [webRS; idleRS] [webPod] inl.

(** [world], with a controller-reference manager whose writes are rejected. *)
Definition refusing : Env :=
  {| env_dLister_Get := env_dLister_Get world;
     env_rsLister_Get := env_rsLister_Get world;
     env_rsLister_List := env_rsLister_List world;
     env_podLister_List := env_podLister_List world;
     LabelSelectorAsSelector := LabelSelectorAsSelector world;
     SplitMetaNamespaceKey := SplitMetaNamespaceKey world;
     env_client_Get := env_client_Get world;
     env_client_UpdateStatus := env_client_UpdateStatus world;
     env_GetDeploymentsForReplicaSet := env_GetDeploymentsForReplicaSet world;
     env_ListReplicaSets := env_ListReplicaSets world;
     env_ClaimReplicaSets := λ _ _ _ _, inr conflict;
     getRollbackTo := getRollbackTo world;
     syncStatusOnly := syncStatusOnly world;
     checkPausedConditions := checkPausedConditions world;
     sync := sync world;
     rollback := rollback world;
     isScalingEvent := isScalingEvent world;
     rolloutRecreate := rolloutRecreate world;
     rolloutRolling := rolloutRolling world |}.

End Scenario.

(** The preparatory calls of a sync that come before the pod listing. *)
Definition claiming (e : Effect) : bool :=
  match e with
  | EDeploymentGet _ _ | EReplicaSetList _ | EClaimReplicaSets _ _ => true
  | _ => false
  end.

(** * Properties *)

(** ** Runs of the monad *)

Lemma extends_refl w : extends w w.
Proof. split; [done | exists []; by rewrite app_nil_r]. Qed.

Lemma extends_trans w1 w2 w3 : extends w1 w2 → extends w2 w3 → extends w1 w3.
Proof.
  intros [Hq1 [r1 Ht1]] [Hq2 [r2 Ht2]]. split; [auto |].
  exists (r1 ++ r2)%list. by rewrite Ht2, Ht1, app_assoc.
Qed.

Lemma final_bind {A B} (m : M A) (k : A → M B) w :
  final (bind m k) w = final (k (result m w)) (final m w).
Proof. unfold final, result, bind. by destruct (m w). Qed.

Lemma result_bind {A B} (m : M A) (k : A → M B) w :
  result (bind m k) w = result (k (result m w)) (final m w).
Proof. unfold final, result, bind. by destruct (m w). Qed.

Lemma effects_app {A} (m : M A) w l :
  w_trace (final m w) = (w_trace w ++ l)%list → effects m w = l.
Proof. unfold effects. intros ->. by rewrite drop_app_length. Qed.

Lemma queue_Add_elem key q : key ∈ q_items (queue_Add key q).
Proof.
  unfold queue_Add. case_bool_decide; [done |].
  simpl. apply elem_of_app. right. by apply list_elem_of_singleton.
Qed.

Lemma queue_Add_mono key k q :
  k ∈ q_items q → k ∈ q_items (queue_Add key q).
Proof.
  unfold queue_Add. case_bool_decide; [done |].
  simpl. intros. apply elem_of_app. by left.
Qed.

Section Runs.

Variable E : Env.

Lemma enqueue_run d w :
  ∃ key, KeyFunc d = inl key
    ∧ enqueue d w
      = (tt, mkWorld (queue_Add key (w_queue w))
                     (w_trace w ++ [EQueueAdd key])).
Proof. unfold enqueue, KeyFunc. eexists. split; reflexivity. Qed.

Lemma extends_enqueue d w : extends w (final (enqueueDeployment d) w).
Proof.
  destruct (enqueue_run d w) as (key & _ & Hrun).
  unfold enqueueDeployment, final. rewrite Hrun. simpl. split; simpl.
  - intros k. apply queue_Add_mono.
  - by eexists.
Qed.

Lemma extends_forEach_enqueue ds w :
  extends w (final (forEach enqueueDeployment ds) w).
Proof.
  revert w. induction ds as [| d ds IH]; intros w.
  - apply extends_refl.
  - simpl. rewrite final_bind.
    eapply extends_trans; [apply extends_enqueue | apply IH].
Qed.

Lemma resolveControllerRef_run ns ref w :
  resolveControllerRef E ns ref w
  = if bool_decide (ref_Kind ref ≠ controllerKind_Kind) then (None, w)
    else
      (match env_dLister_Get E ns (ref_Name ref) with
       | inl d =>
           if bool_decide (UID (d_meta d) ≠ ref_UID ref) then None else Some d
       | inr _ => None
       end,
       mkWorld (w_queue w) (w_trace w ++ [EDeploymentGet ns (ref_Name ref)])).
Proof.
  unfold resolveControllerRef. case_bool_decide; [done |].
  unfold bind, dLister_Get, emit, ret; simpl.
  destruct (env_dLister_Get E ns (ref_Name ref)); [| done].
  by case_bool_decide.
Qed.

Lemma extends_resolveControllerRef ns ref w :
  extends w (final (resolveControllerRef E ns ref) w).
Proof.
  unfold final. rewrite resolveControllerRef_run.
  case_bool_decide; simpl; [apply extends_refl |].
  split; simpl; [done | by eexists].
Qed.

Lemma getDeploymentsForReplicaSet_run rs w :
  final (getDeploymentsForReplicaSet E rs) w
  = mkWorld (w_queue w) (w_trace w ++ [EGetDeploymentsForReplicaSet rs]).
Proof.
  unfold final, getDeploymentsForReplicaSet, GetDeploymentsForReplicaSet,
    bind, emit, ret; simpl.
  destruct (env_GetDeploymentsForReplicaSet E rs); [| done].
  by case_bool_decide.
Qed.

End Runs.

(** ** The grouping helper *)

Lemma foldl_initPodMap_lookup rsList (m : PodMap) uid :
  foldl (λ podMap rs, <[UID (rs_meta rs) := []]> podMap) m rsList !! uid
  = if decide (uid ∈ uidsOf rsList) then Some [] else m !! uid.
Proof.
  revert m. induction rsList as [| rs rsList IH]; intros m.
  - rewrite decide_False; [done | apply not_elem_of_nil].
  - cbn [foldl]. rewrite IH.
    change (uidsOf (rs :: rsList)) with (UID (rs_meta rs) :: uidsOf rsList).
    destruct (decide (uid = UID (rs_meta rs))) as [-> | Hne].
    + rewrite lookup_insert_eq.
      rewrite (decide_True (P := _ ∈ _ :: _)) by apply list_elem_of_here.
      by case_decide.
    + rewrite lookup_insert_ne by done.
      case_decide as Hin.
      * by rewrite decide_True by (by apply list_elem_of_further).
      * rewrite decide_False; [done |].
        intros [? | ?]%elem_of_cons; done.
Qed.

Lemma initPodMap_lookup rsList uid :
  initPodMap rsList !! uid
  = if decide (uid ∈ uidsOf rsList) then Some [] else None.
Proof.
  unfold initPodMap. rewrite foldl_initPodMap_lookup.
  by rewrite lookup_empty.
Qed.

Lemma groupPod_lookup (m : PodMap) pod uid :
  groupPod m pod !! uid
  = if decide (controllerUID pod = Some uid)
    then (λ l, l ++ [pod])%list <$> m !! uid
    else m !! uid.
Proof.
  unfold groupPod, controllerUID.
  destruct (GetControllerOf pod) as [ref |]; simpl; [| done].
  destruct (decide (ref_UID ref = uid)) as [<- | Hne].
  - rewrite decide_True by done.
    destruct (m !! ref_UID ref) as [l |] eqn:Hl; simpl.
    + by rewrite lookup_insert_eq.
    + by rewrite Hl.
  - rewrite decide_False by congruence.
    destruct (m !! ref_UID ref); [| done].
    by rewrite lookup_insert_ne.
Qed.

Lemma foldl_groupPod_lookup pods (m : PodMap) uid :
  foldl groupPod m pods !! uid
  = (λ l, l ++ filter (λ pod, controllerUID pod = Some uid) pods)%list
      <$> m !! uid.
Proof.
  revert m. induction pods as [| pod pods IH]; intros m; simpl.
  - destruct (m !! uid); simpl; [by rewrite app_nil_r | done].
  - rewrite IH, groupPod_lookup, filter_cons.
    case_decide; destruct (m !! uid); simpl; try done.
    by rewrite <- app_assoc.
Qed.

(** The map the helper builds, read at any unique-id. *)
Lemma podMap_lookup rsList pods uid :
  foldl groupPod (initPodMap rsList) pods !! uid
  = if decide (uid ∈ uidsOf rsList)
    then Some (filter (λ pod, controllerUID pod = Some uid) pods)
    else None.
Proof.
  rewrite foldl_groupPod_lookup, initPodMap_lookup. by case_decide.
Qed.

Lemma getPodMapForDeployment_inl E d rsList w podMap :
  result (getPodMapForDeployment E d rsList) w = inl podMap →
  ∃ selector pods,
    LabelSelectorAsSelector E (spec_Selector (d_Spec d)) = inl selector
    ∧ env_podLister_List E (Namespace (d_meta d)) selector = inl pods
    ∧ podMap = foldl groupPod (initPodMap rsList) pods.
Proof.
  unfold result, getPodMapForDeployment.
  destruct (LabelSelectorAsSelector E _) as [selector |]; [| done].
  unfold bind, podLister_List, emit, ret; simpl.
  destruct (env_podLister_List E _ selector) as [pods |] eqn:Hpods; [| done].
  simpl. intros [= <-]. by exists selector, pods.
Qed.

Lemma numPods_zero (podMap : PodMap) :
  numPods podMap = 0%nat ↔ ∀ uid podList, podMap !! uid = Some podList → podList = [].
Proof.
  unfold numPods.
  apply (map_fold_weak_ind (λ n (m : PodMap),
    n = 0%nat ↔ ∀ uid podList, m !! uid = Some podList → podList = [])).
  - split; [| done]. intros _ uid podList. by rewrite lookup_empty.
  - intros uid podList m n Hfresh IH. split.
    + intros Hz uid' podList'.
      destruct (decide (uid = uid')) as [<- | Hne].
      * rewrite lookup_insert_eq. intros [= <-].
        apply length_zero_iff_nil. lia.
      * rewrite lookup_insert_ne by done.
        apply IH. lia.
    + intros Hall.
      rewrite (Hall uid podList) by apply lookup_insert_eq. simpl.
      rewrite Nat.add_0_r. apply IH. intros uid' podList' Hl.
      apply (Hall uid'). rewrite lookup_insert_ne; [done |]. congruence.
Qed.

(** Claim C3, as amended. In the grouping helper a Unit [u] is placed in the
    list of a ReplicaGroup [g] only if [u] has a controller owner-reference
    and the unique-id of that reference equals the unique-id of [g]. The
    kind of the reference is not examined. *)
Theorem getPodMapForDeployment_ownership E d rsList w podMap g u podList :
  result (getPodMapForDeployment E d rsList) w = inl podMap →
  podMap !! UID (rs_meta g) = Some podList →
  u ∈ podList →
  ∃ ref, GetControllerOf u = Some ref ∧ ref_UID ref = UID (rs_meta g).
Proof.
  intros (selector & pods & _ & _ & ->)%getPodMapForDeployment_inl.
  rewrite podMap_lookup. case_decide; [| done].
  intros [= <-] [Hu _]%list_elem_of_filter.
  unfold controllerUID in Hu.
  destruct (GetControllerOf u) as [ref |]; [| done].
  exists ref. split; [done | by injection Hu].
Qed.

Lemma getPodMapForDeployment_ownership_witness :
  result (getPodMapForDeployment Fixture.cluster Fixture.web
            [Fixture.webRS; Fixture.idleRS]) Fixture.w0
    = inl {[ "rs-1" := [Fixture.webPod]; "rs-2" := [] ]}
  ∧ ∃ ref, GetControllerOf Fixture.webPod = Some ref
           ∧ ref_UID ref = UID (rs_meta Fixture.webRS).
Proof.
  split; [by vm_compute |].
  apply (getPodMapForDeployment_ownership Fixture.cluster Fixture.web
           [Fixture.webRS; Fixture.idleRS] Fixture.w0
           {[ "rs-1" := [Fixture.webPod]; "rs-2" := [] ]}
           Fixture.webRS Fixture.webPod [Fixture.webPod]).
  - by vm_compute.
  - by vm_compute.
  - apply list_elem_of_here.
Defined.

(** Claim C3, as stated, fails: a Unit whose controller owner-reference has
    the kind "Job" but the unique-id of the claimed ReplicaGroup "rs-1" is
    placed in that group's list. *)
Lemma getPodMapForDeployment_ignores_kind :
  result (getPodMapForDeployment Fixture.withJob Fixture.web [Fixture.webRS])
         Fixture.w0
    = inl {[ UID (rs_meta Fixture.webRS) := [Fixture.jobPod] ]}
  ∧ ¬ ∃ ref, GetControllerOf Fixture.jobPod = Some ref
             ∧ ref_UID ref = UID (rs_meta Fixture.webRS)
             ∧ ref_Kind ref = replicaSetKind.
Proof.
  split; [by vm_compute |].
  intros (ref & Href & _ & Hkind).
  vm_compute in Href. injection Href as <-. discriminate Hkind.
Qed.

(** Claim C10. The key set of the map the grouping helper returns is exactly
    the set of unique-ids of the ReplicaGroups passed in: each of them is a
    key (mapped to the empty list when no listed Unit points to it), no other
    key appears, and so the map holds zero Units exactly when the list of
    every ReplicaGroup passed in is empty. *)
Theorem getPodMapForDeployment_keys E d rsList w podMap :
  result (getPodMapForDeployment E d rsList) w = inl podMap →
  dom podMap = list_to_set (uidsOf rsList)
  ∧ (∀ rs, rs ∈ rsList → is_Some (podMap !! UID (rs_meta rs)))
  ∧ (∀ uid, is_Some (podMap !! uid) →
       ∃ rs, rs ∈ rsList ∧ UID (rs_meta rs) = uid)
  ∧ (numPods podMap = 0%nat ↔
       ∀ rs, rs ∈ rsList → podMap !! UID (rs_meta rs) = Some []).
Proof.
  intros (selector & pods & _ & _ & ->)%getPodMapForDeployment_inl.
  assert (Hkey : ∀ uid, is_Some (foldl groupPod (initPodMap rsList) pods !! uid)
                        ↔ uid ∈ uidsOf rsList).
  { intros uid. rewrite podMap_lookup.
    case_decide; split; intros Hx; try done; try (by eexists); by destruct Hx. }
  assert (Hin : ∀ rs, rs ∈ rsList → UID (rs_meta rs) ∈ uidsOf rsList).
  { intros rs Hrs. unfold uidsOf. apply list_elem_of_fmap. by exists rs. }
  repeat split.
  - apply set_eq. intros uid.
    by rewrite elem_of_dom, Hkey, elem_of_list_to_set.
  - intros rs Hrs. apply Hkey. auto.
  - intros uid Huid%Hkey. unfold uidsOf in Huid.
    apply list_elem_of_fmap in Huid as (rs & -> & Hrs). by exists rs.
  - intros Hz rs Hrs.
    destruct (proj2 (Hkey (UID (rs_meta rs))) (Hin rs Hrs)) as [podList Hl].
    rewrite Hl. f_equal. by eapply numPods_zero.
  - intros Hall. apply numPods_zero. intros uid podList Hl.
    assert (is_Some (foldl groupPod (initPodMap rsList) pods !! uid)) as Hs
      by (by eexists).
    apply Hkey in Hs. unfold uidsOf in Hs.
    apply list_elem_of_fmap in Hs as (rs & -> & Hrs).
    rewrite (Hall rs Hrs) in Hl. by injection Hl.
Qed.

Lemma getPodMapForDeployment_keys_witness :
  result (getPodMapForDeployment Fixture.cluster Fixture.web
            [Fixture.webRS; Fixture.idleRS]) Fixture.w0
    = inl {[ "rs-1" := [Fixture.webPod]; "rs-2" := [] ]}
  ∧ dom ({[ "rs-1" := [Fixture.webPod]; "rs-2" := [] ]} : PodMap)
    = list_to_set (uidsOf [Fixture.webRS; Fixture.idleRS])
  ∧ is_Some (({[ "rs-1" := [Fixture.webPod]; "rs-2" := [] ]} : PodMap)
               !! UID (rs_meta Fixture.idleRS)).
Proof.
  split; [by vm_compute |].
  destruct (getPodMapForDeployment_keys Fixture.cluster Fixture.web
              [Fixture.webRS; Fixture.idleRS] Fixture.w0
              {[ "rs-1" := [Fixture.webPod]; "rs-2" := [] ]})
    as (Hdom & Hall & _); [by vm_compute |].
  split; [exact Hdom |].
  apply Hall. apply list_elem_of_further, list_elem_of_here.
Defined.

(** ** The ReplicaSet update handler *)

(** Claim C8. When the old and the new version of a ReplicaGroup carry the
    same resource-version the update handler returns at once: the queue and
    the trace are unchanged, so no owner is resolved, no orphan matching is
    run and nothing is enqueued. *)
Theorem updateReplicaSet_same_resourceVersion E oldRS curRS w :
  ResourceVersion (rs_meta curRS) = ResourceVersion (rs_meta oldRS) →
  updateReplicaSet E oldRS curRS w = (tt, w).
Proof.
  intros Hrv. unfold updateReplicaSet.
  by rewrite bool_decide_eq_true_2.
Qed.

Lemma updateReplicaSet_same_resourceVersion_witness :
  updateReplicaSet Fixture.cluster Fixture.webRS Fixture.webRS Fixture.w0
  = (tt, Fixture.w0).
Proof.
  apply (updateReplicaSet_same_resourceVersion
           Fixture.cluster Fixture.webRS Fixture.webRS Fixture.w0).
  reflexivity.
Defined.

(** What [updateReplicaSet] does once the old owner has been dealt with only
    adds effects and keys. *)
Lemma updateReplicaSet_tail_extends E oldRS curRS changed w :
  extends w (final
    (match GetControllerOf curRS with
     | Some curRef =>
         let* d := resolveControllerRef E (Namespace (rs_meta curRS)) curRef in
         match d with
         | None => ret tt
         | Some d => enqueueDeployment d
         end
     | None =>
         if bool_decide (Labels (rs_meta curRS) ≠ Labels (rs_meta oldRS))
            || changed
         then
           let* ds := getDeploymentsForReplicaSet E curRS in
           match ds with
           | [] => ret tt
           | _ => forEach enqueueDeployment ds
           end
         else ret tt
     end) w).
Proof.
  destruct (GetControllerOf curRS) as [curRef |].
  - rewrite final_bind.
    eapply extends_trans; [apply extends_resolveControllerRef |].
    destruct (result _ w); [apply extends_enqueue | apply extends_refl].
  - destruct (_ || _); [| apply extends_refl].
    rewrite final_bind.
    apply extends_trans with (final (getDeploymentsForReplicaSet E curRS) w).
    { rewrite getDeploymentsForReplicaSet_run. split; [done | by eexists]. }
    destruct (result _ w); [apply extends_refl |].
    apply extends_forEach_enqueue.
Qed.

(** Claim C9. On a ReplicaGroup update notification, when the controller
    owner-reference differs between the old and the new version and the old
    one resolves to a Workload (kind and unique-id verified), the handler
    first looks that Workload up and adds its key to the queue, where the key
    still is when the handler returns. A notification is an update as the
    informer delivers it: two versions with the same resource-version have
    the same metadata ("two different versions of the same replica set will
    always have different RVs", as the handler's guard notes). *)
Theorem updateReplicaSet_enqueues_old_owner E oldRS curRS oldRef d w :
  (ResourceVersion (rs_meta curRS) = ResourceVersion (rs_meta oldRS) →
   rs_meta curRS = rs_meta oldRS) →
  GetControllerOf oldRS = Some oldRef →
  GetControllerOf curRS ≠ GetControllerOf oldRS →
  result (resolveControllerRef E (Namespace (rs_meta oldRS)) oldRef) w
    = Some d →
  ∃ key rest,
    KeyFunc d = inl key
    ∧ effects (updateReplicaSet E oldRS curRS) w
      = ([EDeploymentGet (Namespace (rs_meta oldRS)) (ref_Name oldRef);
          EQueueAdd key] ++ rest)%list
    ∧ key ∈ q_items (w_queue (final (updateReplicaSet E oldRS curRS) w)).
Proof.
  intros Hinformer Hold Hchanged Hres.
  assert (Hrv : ResourceVersion (rs_meta curRS)
                ≠ ResourceVersion (rs_meta oldRS)).
  { intros Heq. apply Hchanged. unfold GetControllerOf.
    change (objectMeta curRS) with (rs_meta curRS).
    change (objectMeta oldRS) with (rs_meta oldRS).
    by rewrite (Hinformer Heq). }
  destruct (enqueue_run d
              (final (resolveControllerRef E (Namespace (rs_meta oldRS)) oldRef) w))
    as (key & Hkey & Hrun).
  assert (Hw1 : final (resolveControllerRef E (Namespace (rs_meta oldRS)) oldRef) w
                = mkWorld (w_queue w)
                    (w_trace w ++ [EDeploymentGet (Namespace (rs_meta oldRS))
                                                  (ref_Name oldRef)])).
  { revert Hres. unfold result, final. rewrite resolveControllerRef_run.
    by case_bool_decide. }
  unfold updateReplicaSet.
  rewrite bool_decide_eq_false_2 by done.
  rewrite (bool_decide_eq_true_2 _ Hchanged), Hold.
  match goal with
  | |- context [final (bind ?m ?k) w] =>
      pose proof (updateReplicaSet_tail_extends E oldRS curRS true (final m w))
        as [Hq [rest Ht]];
      assert (Hm : final m w
                   = mkWorld (queue_Add key (w_queue w))
                       ((w_trace w
                         ++ [EDeploymentGet (Namespace (rs_meta oldRS))
                                            (ref_Name oldRef)])
                        ++ [EQueueAdd key]))
  end.
  { rewrite final_bind, Hres. unfold enqueueDeployment, final at 1.
    rewrite Hrun. simpl. by rewrite Hw1. }
  exists key, rest. split; [done |]. split.
  - apply effects_app. rewrite final_bind.
    simpl in Ht. rewrite Ht, Hm. simpl. by rewrite <- !app_assoc.
  - rewrite final_bind. apply Hq. rewrite Hm. simpl. apply queue_Add_elem.
Qed.

Lemma updateReplicaSet_enqueues_old_owner_witness :
  ∃ key rest,
    KeyFunc Fixture.web = inl key
    ∧ effects (updateReplicaSet Fixture.cluster Fixture.webRS
                 Fixture.releasedRS) Fixture.w0
      = ([EDeploymentGet "default" "web"; EQueueAdd key] ++ rest)%list
    ∧ key ∈ q_items (w_queue (final (updateReplicaSet Fixture.cluster
                                       Fixture.webRS Fixture.releasedRS)
                                    Fixture.w0)).
Proof.
  apply (updateReplicaSet_enqueues_old_owner Fixture.cluster Fixture.webRS
           Fixture.releasedRS
           (Fixture.controllerRef "Deployment" "web" "d-1") Fixture.web
           Fixture.w0).
  - by vm_compute.
  - reflexivity.
  - by vm_compute.
  - reflexivity.
Defined.

(** ** Owner resolution *)

(** Claim C6. [resolveControllerRef] returns a Workload exactly when the
    kind of the reference is the Deployment kind, the cache lookup by
    (namespace, name) finds an object and the unique-id of that object is
    the unique-id of the reference; otherwise it returns nothing, and then
    the add, update and delete handlers of a ReplicaGroup that carries this
    reference enqueue nothing. *)
Theorem resolveControllerRef_verified E namespace ref w :
  (∀ d, result (resolveControllerRef E namespace ref) w = Some d
        ↔ ref_Kind ref = controllerKind_Kind
          ∧ env_dLister_Get E namespace (ref_Name ref) = inl d
          ∧ UID (d_meta d) = ref_UID ref)
  ∧ (result (resolveControllerRef E namespace ref) w = None →
     ∀ rs, Namespace (rs_meta rs) = namespace →
           GetControllerOf rs = Some ref →
       Forall (λ e, isEnqueue e = false)
              (effects (deleteReplicaSet E (ObjReplicaSet rs)) w)
       ∧ Forall (λ e, isEnqueue e = false) (effects (addReplicaSet E rs) w)
       ∧ ∀ oldRS, GetControllerOf oldRS = Some ref →
           Forall (λ e, isEnqueue e = false)
                  (effects (updateReplicaSet E oldRS rs) w)).
Proof.
  split.
  - intros d. unfold result. rewrite resolveControllerRef_run.
    case_bool_decide as Hkind; simpl.
    + split; [done | tauto].
    + destruct (env_dLister_Get E namespace (ref_Name ref)) as [d' | err].
      * case_bool_decide as Huid.
        -- split; [done |]. intros (_ & [= ->] & ?). done.
        -- split.
           ++ by intros [= ->].
           ++ by intros (_ & [= ->] & _).
      * split; [done |]. by intros (_ & ? & _).
  - intros Hnone rs <- Href. unfold result in Hnone.
    assert (Hrun : resolveControllerRef E (Namespace (rs_meta rs)) ref w
                   = (None, final (resolveControllerRef E
                                     (Namespace (rs_meta rs)) ref) w)).
    { unfold final. by destruct (resolveControllerRef E _ ref w) as [[] ?]. }
    assert (Hfin : Forall (λ e, isEnqueue e = false)
              (drop (length (w_trace w))
                 (w_trace (final (resolveControllerRef E
                                    (Namespace (rs_meta rs)) ref) w)))).
    { unfold final. rewrite resolveControllerRef_run.
      case_bool_decide; simpl; no_enqueue. }
    repeat split.
    + unfold effects, final, deleteReplicaSet. rewrite Href.
      unfold bind. by rewrite Hrun.
    + unfold effects, final, addReplicaSet, deleteReplicaSet. rewrite Href.
      destruct (DeletionTimestamp _); simpl; unfold bind; by rewrite Hrun.
    + intros oldRS Hold. unfold effects, final, updateReplicaSet.
      case_bool_decide; simpl; [no_enqueue |].
      rewrite Href, Hold. rewrite bool_decide_eq_false_2 by (by intros []).
      unfold bind at 1. unfold ret at 1. unfold bind. by rewrite Hrun.
Qed.

Lemma resolveControllerRef_verified_witness :
  result (resolveControllerRef Fixture.cluster "default"
            (Fixture.controllerRef "Deployment" "web" "d-1")) Fixture.w0
    = Some Fixture.web
  ∧ Forall (λ e, isEnqueue e = false)
           (effects (deleteReplicaSet Fixture.cluster
                       (ObjReplicaSet Fixture.danglingRS)) Fixture.w0).
Proof.
  destruct (resolveControllerRef_verified Fixture.cluster "default"
              (Fixture.controllerRef "Deployment" "web" "d-1") Fixture.w0)
    as [Hsome _].
  destruct (resolveControllerRef_verified Fixture.cluster "default"
              (Fixture.controllerRef "Deployment" "gone" "d-7") Fixture.w0)
    as [_ Hnone].
  split.
  - apply Hsome. by vm_compute.
  - apply (Hnone eq_refl Fixture.danglingRS); reflexivity.
Defined.

(** ** The Pod delete handler *)

(** Claim C7. Whatever enqueue a Unit delete notification causes is the
    enqueue of one Workload [d], and then: the notification carries a Unit
    (directly or in a tombstone); the Unit's controller reference has the
    ReplicaSet kind and names a cached ReplicaGroup with the reference's
    unique-id; that group's controller reference has the Deployment kind and
    names the cached Workload [d] with the reference's unique-id; the
    strategy of [d] is Recreate; and the unit-to-replica-group map recomputed
    for [d] holds zero Units. In every other case nothing is enqueued. *)
Theorem deletePod_enqueue_only_when E obj w e :
  e ∈ effects (deletePod E obj) w →
  isEnqueue e = true →
  ∃ pod rsRef rs dRef d rsList podMap key,
    (obj = ObjPod pod ∨ ∃ k, obj = ObjTombstone k (ObjPod pod))
    ∧ (GetControllerOf pod = Some rsRef
       ∧ ref_Kind rsRef = replicaSetKind
       ∧ env_rsLister_Get E (Namespace (pod_meta pod)) (ref_Name rsRef) = inl rs
       ∧ UID (rs_meta rs) = ref_UID rsRef)
    ∧ (GetControllerOf rs = Some dRef
       ∧ ref_Kind dRef = controllerKind_Kind
       ∧ env_dLister_Get E (Namespace (rs_meta rs)) (ref_Name dRef) = inl d
       ∧ UID (d_meta d) = ref_UID dRef)
    ∧ spec_StrategyType (d_Spec d) = RecreateDeploymentStrategyType
    ∧ env_ListReplicaSets E d = inl rsList
    ∧ result (getPodMapForDeployment E d rsList) w = inl podMap
    ∧ numPods podMap = 0%nat
    ∧ KeyFunc d = inl key
    ∧ e = EQueueAdd key.
Proof.
  intros Hin Henq.
  assert (Hpod : ∃ pod,
             obj = ObjPod pod ∨ ∃ k, obj = ObjTombstone k (ObjPod pod)).
  { destruct obj as [| | pod | k inner |];
      [| | by eauto | destruct inner; [| | by eauto | |] |];
      unfold deletePod in Hin; run_monad_in Hin;
      rewrite drop_app_length in Hin; not_enqueued Hin Henq. }
  destruct Hpod as [pod Hobj].
  assert (Hrun : deletePod E obj = deletePod E (ObjPod pod))
    by (by destruct Hobj as [-> | [k ->]]).
  rewrite Hrun in Hin. clear Hrun.
  unfold deletePod, getDeploymentForPod, resolveControllerRef,
    getPodMapForDeployment, enqueueDeployment, enqueue, KeyFunc in Hin.
  run_monad_in Hin.
  repeat (case_bool_decide || case_match); simplify_eq; run_monad_in Hin.
  all: rewrite ?drop_app_length, ?drop_all, <- ?app_assoc, ?drop_app_length in Hin.
  all: simpl in Hin.
  all: try (not_enqueued Hin Henq).
  all: repeat (apply elem_of_cons in Hin as [-> | Hin]; [discriminate Henq |]).
  all: apply list_elem_of_singleton in Hin as ->.
  all: eexists pod, _, _, _, _, _, _, _.
  all: repeat split; eauto.
  all: try (unfold KeyFunc;
            by rewrite ?bool_decide_eq_true_2, ?bool_decide_eq_false_2 by done).
  all: unfold result, getPodMapForDeployment, bind, podLister_List, emit, ret.
  all: repeat match goal with
         | H : LabelSelectorAsSelector _ _ = _ |- _ => rewrite H; clear H
         | H : env_podLister_List _ _ _ = _ |- _ => simpl; rewrite H; clear H
         end.
  all: reflexivity.
Qed.

Lemma deletePod_enqueue_only_when_witness :
  effects (deletePod Fixture.drained (ObjPod Fixture.webPod)) Fixture.w0
    = [EReplicaSetGet "default" "web-1"; EDeploymentGet "default" "web";
       EListReplicaSets Fixture.web; EPodList "default" [];
       EQueueAdd "default/web"]
  ∧ ∃ pod rsRef rs dRef d rsList podMap key,
      (ObjPod Fixture.webPod = ObjPod pod
       ∨ ∃ k, ObjPod Fixture.webPod = ObjTombstone k (ObjPod pod))
      ∧ (GetControllerOf pod = Some rsRef
         ∧ ref_Kind rsRef = replicaSetKind
         ∧ env_rsLister_Get Fixture.drained (Namespace (pod_meta pod))
             (ref_Name rsRef) = inl rs
         ∧ UID (rs_meta rs) = ref_UID rsRef)
      ∧ (GetControllerOf rs = Some dRef
         ∧ ref_Kind dRef = controllerKind_Kind
         ∧ env_dLister_Get Fixture.drained (Namespace (rs_meta rs))
             (ref_Name dRef) = inl d
         ∧ UID (d_meta d) = ref_UID dRef)
      ∧ spec_StrategyType (d_Spec d) = RecreateDeploymentStrategyType
      ∧ env_ListReplicaSets Fixture.drained d = inl rsList
      ∧ result (getPodMapForDeployment Fixture.drained d rsList) Fixture.w0
        = inl podMap
      ∧ numPods podMap = 0%nat
      ∧ KeyFunc d = inl key
      ∧ EQueueAdd "default/web" = EQueueAdd key.
Proof.
  assert (Heff : effects (deletePod Fixture.drained (ObjPod Fixture.webPod))
                   Fixture.w0
                 = [EReplicaSetGet "default" "web-1";
                    EDeploymentGet "default" "web";
                    EListReplicaSets Fixture.web; EPodList "default" [];
                    EQueueAdd "default/web"])
    by (by vm_compute).
  split; [exact Heff |].
  apply (deletePod_enqueue_only_when Fixture.drained
           (ObjPod Fixture.webPod) Fixture.w0 (EQueueAdd "default/web")).
  - rewrite Heff. do 4 apply list_elem_of_further. apply list_elem_of_here.
  - reflexivity.
Defined.

(** Conversely, when the walk resolves, the strategy is Recreate, the
    ReplicaSets can be listed and the recomputed map holds no pod, the
    Workload is enqueued. *)
Lemma deletePod_enqueues_when E pod rsRef rs dRef d rsList podMap w :
  GetControllerOf pod = Some rsRef →
  ref_Kind rsRef = replicaSetKind →
  env_rsLister_Get E (Namespace (pod_meta pod)) (ref_Name rsRef) = inl rs →
  UID (rs_meta rs) = ref_UID rsRef →
  GetControllerOf rs = Some dRef →
  ref_Kind dRef = controllerKind_Kind →
  env_dLister_Get E (Namespace (rs_meta rs)) (ref_Name dRef) = inl d →
  UID (d_meta d) = ref_UID dRef →
  spec_StrategyType (d_Spec d) = RecreateDeploymentStrategyType →
  env_ListReplicaSets E d = inl rsList →
  result (getPodMapForDeployment E d rsList) w = inl podMap →
  numPods podMap = 0%nat →
  ∃ key selector,
    KeyFunc d = inl key
    ∧ effects (deletePod E (ObjPod pod)) w
      = [EReplicaSetGet (Namespace (pod_meta pod)) (ref_Name rsRef);
         EDeploymentGet (Namespace (rs_meta rs)) (ref_Name dRef);
         EListReplicaSets d; EPodList (Namespace (d_meta d)) selector;
         EQueueAdd key].
Proof.
  intros Hpod Hk1 Hrs Hu1 Hrsref Hk2 Hd Hu2 Hstrat Hlist Hmap Hzero.
  apply getPodMapForDeployment_inl in Hmap as (selector & pods & Hsel & Hpods & ->).
  destruct (enqueue_run d w) as (key & Hkey & _).
  exists key, selector. split; [done |].
  unfold KeyFunc in Hkey. injection Hkey as <-.
  unfold deletePod, getDeploymentForPod, resolveControllerRef,
    getPodMapForDeployment, enqueueDeployment, enqueue, KeyFunc.
  unfold dLister_Get, rsLister_Get, podLister_List, ListReplicaSets, queueAdd.
  unfold effects, final, bind, ret, emit, onQueue.
  repeat (cbn beta iota;
          first
            [ rewrite Hpod | rewrite Hrsref | rewrite Hsel | rewrite Hrs
            | rewrite Hd | rewrite Hlist | rewrite Hpods
            | rewrite (bool_decide_eq_false_2 (ref_Kind rsRef ≠ replicaSetKind))
                by (by intros [])
            | rewrite (bool_decide_eq_false_2 (UID (rs_meta rs) ≠ ref_UID rsRef))
                by (by intros [])
            | rewrite (bool_decide_eq_false_2 (ref_Kind dRef ≠ controllerKind_Kind))
                by (by intros [])
            | rewrite (bool_decide_eq_false_2 (UID (d_meta d) ≠ ref_UID dRef))
                by (by intros [])
            | rewrite (bool_decide_eq_true_2 _ Hstrat)
            | rewrite (bool_decide_eq_true_2 _ Hzero) ]).
  cbn [w_trace w_queue snd]. rewrite <- !app_assoc. apply drop_app_length.
Qed.

(** While a Unit of the Workload is still listed, its deletion enqueues
    nothing. *)
Example deletePod_units_remain :
  effects (deletePod Fixture.cluster (ObjPod Fixture.webPod)) Fixture.w0
  = [EReplicaSetGet "default" "web-1"; EDeploymentGet "default" "web";
     EListReplicaSets Fixture.web; EPodList "default" []].
Proof. by vm_compute. Qed.

(** ** The retry policy *)

Lemma handleErr_failing_run e key w :
  HasStatusCause e NamespaceTerminatingCause = false →
  handleErr (Some e) key w
  = if bool_decide (NumRequeues key (w_queue w) < maxRetries)%nat
    then (tt, mkWorld (queue_AddRateLimited key (w_queue w))
                      (w_trace w ++ [EQueueAddRateLimited key]))
    else (tt, mkWorld (queue_Forget key (w_queue w))
                      (w_trace w ++ [EHandleError e; EQueueForget key])).
Proof.
  intros Hcause. unfold handleErr. rewrite Hcause.
  unfold bind, queueNumRequeues. case_bool_decide; [done |].
  unfold HandleError, queueForget, bind, emit, onQueue; simpl.
  by rewrite <- app_assoc.
Qed.

Lemma handleErr_terminal_run err key w :
  (err = None
   ∨ ∃ e, err = Some e ∧ HasStatusCause e NamespaceTerminatingCause = true) →
  handleErr err key w
  = (tt, mkWorld (queue_Forget key (w_queue w))
                 (w_trace w ++ [EQueueForget key])).
Proof.
  intros [-> | (e & -> & Hcause)]; unfold handleErr; [done |].
  by rewrite Hcause.
Qed.

Lemma NumRequeues_Forget key q : NumRequeues key (queue_Forget key q) = 0%nat.
Proof.
  unfold NumRequeues, queue_Forget; simpl. by rewrite lookup_delete_eq.
Qed.

(** Claim C2. For a failing outcome (an error that is not tagged as
    namespace-terminating) the error handler, while the attempt counter of
    the key is below 15, only calls [AddRateLimited]: the key is scheduled
    again after 5ms doubled per earlier attempt and its counter goes up by
    one. With the counter at 15 or more it hands the error to the
    process-wide error handler and forgets the key: the counter is cleared
    and the key is put back neither in the queue nor in the delayed list. *)
Theorem handleErr_retry_policy e key w :
  HasStatusCause e NamespaceTerminatingCause = false →
  let n := NumRequeues key (w_queue w) in
  ((n < 15)%nat →
     handleErr (Some e) key w
       = (tt, mkWorld (queue_AddRateLimited key (w_queue w))
                      (w_trace w ++ [EQueueAddRateLimited key]))
     ∧ q_delayed (queue_AddRateLimited key (w_queue w))
       = (q_delayed (w_queue w) ++ [(key, (5 * 2 ^ n)%nat)])%list
     ∧ NumRequeues key (queue_AddRateLimited key (w_queue w)) = S n)
  ∧ ((15 ≤ n)%nat →
     handleErr (Some e) key w
       = (tt, mkWorld (queue_Forget key (w_queue w))
                      (w_trace w ++ [EHandleError e; EQueueForget key]))
     ∧ Forall (λ e, isEnqueue e = false) (effects (handleErr (Some e) key) w)
     ∧ q_items (queue_Forget key (w_queue w)) = q_items (w_queue w)
     ∧ q_delayed (queue_Forget key (w_queue w)) = q_delayed (w_queue w)
     ∧ NumRequeues key (queue_Forget key (w_queue w)) = 0%nat).
Proof.
  intros Hcause n.
  pose proof (handleErr_failing_run e key w Hcause) as Hrun. fold n in Hrun.
  split; intros Hn.
  - rewrite bool_decide_eq_true_2 in Hrun by (unfold maxRetries; lia).
    repeat split; [done |].
    unfold NumRequeues, queue_AddRateLimited; simpl.
    by rewrite lookup_insert_eq.
  - rewrite bool_decide_eq_false_2 in Hrun by (unfold maxRetries; lia).
    split; [done |]. split.
    + unfold effects, final. rewrite Hrun. simpl.
      rewrite drop_app_length. repeat constructor.
    + repeat split. apply NumRequeues_Forget.
Qed.

Lemma handleErr_retry_policy_witness :
  handleErr (Some Fixture.conflict) "default/web" Fixture.w0
    = (tt, mkWorld (mkQueue [] [("default/web", 5%nat)]
                            {[ "default/web" := 1%nat ]})
                   [EQueueAddRateLimited "default/web"])
  ∧ handleErr (Some Fixture.conflict) "default/web"
      (mkWorld (mkQueue [] [] {[ "default/web" := 15%nat ]}) [])
    = (tt, mkWorld (mkQueue [] [] ∅)
                   [EHandleError Fixture.conflict;
                    EQueueForget "default/web"]).
Proof.
  destruct (handleErr_retry_policy Fixture.conflict "default/web" Fixture.w0)
    as [Hretry _]; [reflexivity |].
  destruct (handleErr_retry_policy Fixture.conflict "default/web"
              (mkWorld (mkQueue [] [] {[ "default/web" := 15%nat ]}) []))
    as [_ Hdrop]; [reflexivity |].
  split.
  - destruct Hretry as [Hrun _]; [vm_compute; lia |]. exact Hrun.
  - destruct Hdrop as [Hrun _]; [vm_compute; lia |]. exact Hrun.
Defined.

(** From a fresh key, each of the first 15 failures requeues it (after 5ms,
    10ms, ... 81920ms); the failure after those drops it. *)
Example fifteen_requeues_then_drop :
  effects (failures 15 Fixture.conflict "default/web") Fixture.w0
    = repeat (EQueueAddRateLimited "default/web") 15
  ∧ q_delayed (w_queue (final (failures 15 Fixture.conflict "default/web")
                              Fixture.w0))
    = (λ n, ("default/web", (5 * 2 ^ n)%nat)) <$> seq 0 15
  ∧ effects (failures 16 Fixture.conflict "default/web") Fixture.w0
    = (repeat (EQueueAddRateLimited "default/web") 15
       ++ [EHandleError Fixture.conflict; EQueueForget "default/web"])%list.
Proof. repeat split; by vm_compute. Qed.

(** Claim C5. When the Workload named by a key is not found in the cache the
    sync returns no error, having done nothing but the lookup; and for an
    outcome that is no error or an error tagged as namespace-terminating the
    error handler only forgets the key: its attempt counter is back at zero
    and the key is put back neither in the queue nor in the delayed list. *)
Theorem terminal_outcomes_forget E key w :
  (∀ namespace name err,
     SplitMetaNamespaceKey E key = inl (namespace, name) →
     env_dLister_Get E namespace name = inr err →
     IsNotFound (Some err) = true →
     syncDeployment E key w
     = (None, mkWorld (w_queue w)
                      (w_trace w ++ [EDeploymentGet namespace name])))
  ∧ (∀ err,
       (err = None
        ∨ ∃ e, err = Some e
               ∧ HasStatusCause e NamespaceTerminatingCause = true) →
       handleErr err key w
       = (tt, mkWorld (queue_Forget key (w_queue w))
                      (w_trace w ++ [EQueueForget key]))
       ∧ NumRequeues key (queue_Forget key (w_queue w)) = 0%nat
       ∧ q_items (queue_Forget key (w_queue w)) = q_items (w_queue w)
       ∧ q_delayed (queue_Forget key (w_queue w)) = q_delayed (w_queue w)).
Proof.
  split.
  - intros namespace name err Hsplit Hget Hnf.
    unfold syncDeployment. rewrite Hsplit.
    unfold dLister_Get, bind, emit, ret. cbn beta iota.
    rewrite Hget. cbn beta iota. by rewrite Hnf.
  - intros err Hterminal. split; [by apply handleErr_terminal_run |].
    split; [apply NumRequeues_Forget | done].
Qed.

Lemma terminal_outcomes_forget_witness :
  syncDeployment Fixture.cluster "default/gone" Fixture.w0
    = (None, mkWorld emptyQueue [EDeploymentGet "default" "gone"])
  ∧ handleErr (Some Fixture.namespaceTerminating) "default/gone"
      (mkWorld (mkQueue [] [] {[ "default/gone" := 3%nat ]}) [])
    = (tt, mkWorld (queue_Forget "default/gone"
                      (mkQueue [] [] {[ "default/gone" := 3%nat ]}))
                   [EQueueForget "default/gone"])
  ∧ NumRequeues "default/gone"
      (queue_Forget "default/gone"
         (mkQueue [] [] {[ "default/gone" := 3%nat ]})) = 0%nat.
Proof.
  destruct (terminal_outcomes_forget Fixture.cluster "default/gone"
              Fixture.w0) as [Hsync _].
  destruct (terminal_outcomes_forget Fixture.cluster "default/gone"
              (mkWorld (mkQueue [] [] {[ "default/gone" := 3%nat ]}) []))
    as [_ Hforget].
  split.
  - apply (Hsync "default" "gone" (Fixture.notFound "gone")); reflexivity.
  - destruct (Hforget (Some Fixture.namespaceTerminating))
      as (Hrun & Hzero & _).
    + right. exists Fixture.namespaceTerminating. by split.
    + by split.
Defined.

(** ** The sync *)

(** Claim C1. For a Deployment whose selector is the empty selector, a sync
    looks the Deployment up, emits the "SelectingAll" warning event, sends a
    status update if and only if the observed generation is behind the
    generation, and returns no error. The object it writes is the Deployment
    with status.observed-generation set to its generation and nothing else
    changed. It does nothing else: the queue is untouched and no ReplicaGroup
    is read, listed, claimed or changed. *)
Theorem syncDeployment_selecting_all E key namespace name d w :
  SplitMetaNamespaceKey E key = inl (namespace, name) →
  env_dLister_Get E namespace name = inl d →
  spec_Selector (d_Spec d) = Some everything →
  syncDeployment E key w
  = (None,
     mkWorld (w_queue w)
       (w_trace w
        ++ [EDeploymentGet namespace name;
            EEventf d EventTypeWarning "SelectingAll" selectingAllMessage]
        ++ (if bool_decide (ObservedGeneration (d_Status d)
                            < Generation (d_meta d))%Z
            then [EUpdateStatus
                    (mkDeployment (d_meta d) (d_Spec d)
                       (mkDeploymentStatus (Generation (d_meta d))
                                           (Conditions (d_Status d))))]
            else []))%list)
  ∧ (∀ d', EUpdateStatus d' ∈ effects (syncDeployment E key) w →
       (ObservedGeneration (d_Status d) < Generation (d_meta d))%Z
       ∧ ObservedGeneration (d_Status d') = Generation (d_meta d)
       ∧ Generation (d_meta d') = Generation (d_meta d)
       ∧ d_meta d' = d_meta d
       ∧ d_Spec d' = d_Spec d
       ∧ Conditions (d_Status d') = Conditions (d_Status d))
  ∧ Forall (λ e, touchesReplicaSets e = false)
           (effects (syncDeployment E key) w).
Proof.
  intros Hsplit Hget Hsel.
  assert (Hrun : syncDeployment E key w
    = (None,
       mkWorld (w_queue w)
         (w_trace w
          ++ [EDeploymentGet namespace name;
              EEventf d EventTypeWarning "SelectingAll" selectingAllMessage]
          ++ (if bool_decide (ObservedGeneration (d_Status d)
                              < Generation (d_meta d))%Z
              then [EUpdateStatus
                      (mkDeployment (d_meta d) (d_Spec d)
                         (mkDeploymentStatus (Generation (d_meta d))
                                             (Conditions (d_Status d))))]
              else []))%list)).
  { unfold syncDeployment. rewrite Hsplit.
    unfold bind, dLister_Get, Eventf, UpdateStatus, emit, ret; simpl.
    rewrite Hget, (bool_decide_eq_true_2 _ Hsel).
    case_bool_decide; simpl; by rewrite <- !app_assoc. }
  split; [exact Hrun |].
  unfold effects, final. rewrite Hrun. simpl. rewrite drop_app_length.
  split.
  - intros d' Hin. case_bool_decide as Hstale.
    + apply elem_of_cons in Hin as [[=] | Hin].
      apply elem_of_cons in Hin as [[=] | Hin].
      apply list_elem_of_singleton in Hin. injection Hin as ->.
      by repeat split.
    + apply elem_of_cons in Hin as [[=] | Hin].
      apply elem_of_cons in Hin as [[=] | Hin].
      by apply elem_of_nil in Hin.
  - case_bool_decide; repeat constructor.
Qed.

Lemma syncDeployment_selecting_all_witness :
  syncDeployment Fixture.cluster "default/all" Fixture.w0
  = (None,
     mkWorld emptyQueue
       [EDeploymentGet "default" "all";
        EEventf Fixture.selectAll EventTypeWarning "SelectingAll"
                selectingAllMessage;
        EUpdateStatus
          (mkDeployment
             (mkObjectMeta "all" "default" "d-2" "20" 3 None None [])
             (mkDeploymentSpec (Some (mkLabelSelector None None))
                               "RollingUpdate" false)
             (mkDeploymentStatus 3 []))])
  ∧ ObservedGeneration (d_Status Fixture.selectAll) = 2%Z.
Proof.
  destruct (syncDeployment_selecting_all Fixture.cluster "default/all"
              "default" "all" Fixture.selectAll Fixture.w0) as [Hrun _];
    [reflexivity | reflexivity | reflexivity |].
  split; [exact Hrun | reflexivity].
Defined.

(** Outside the empty-selector branch, the errors of the reads at the head of
    the sync come back as they are. *)
Lemma syncDeployment_returns_read_errors E key w :
  (∀ err, SplitMetaNamespaceKey E key = inr err →
          result (syncDeployment E key) w = Some err)
  ∧ (∀ namespace name err,
       SplitMetaNamespaceKey E key = inl (namespace, name) →
       env_dLister_Get E namespace name = inr err →
       IsNotFound (Some err) = false →
       result (syncDeployment E key) w = Some err)
  ∧ (∀ namespace name d err,
       SplitMetaNamespaceKey E key = inl (namespace, name) →
       env_dLister_Get E namespace name = inl d →
       spec_Selector (d_Spec d) ≠ Some everything →
       env_rsLister_List E (Namespace (d_meta d)) = inr err →
       result (syncDeployment E key) w = Some err).
Proof.
  repeat split.
  - intros err Hsplit. unfold result, syncDeployment. by rewrite Hsplit.
  - intros namespace name err Hsplit Hget Hnf.
    unfold result, syncDeployment. rewrite Hsplit.
    unfold dLister_Get, bind, emit, ret. cbn beta iota.
    rewrite Hget. cbn beta iota. by rewrite Hnf.
  - intros namespace name d err Hsplit Hget Hsel Hlist.
    unfold result, syncDeployment. rewrite Hsplit.
    unfold dLister_Get, bind, emit, ret. cbn beta iota.
    rewrite Hget. cbn beta iota zeta.
    rewrite (bool_decide_eq_false_2 _ Hsel).
    unfold getReplicaSetsForDeployment, rsLister_List, bind, emit, ret.
    cbn beta iota. by rewrite Hlist.
Qed.

(** Claim C4 does not hold of the code: in the empty-selector branch the
    result of the status write is dropped. Here the store rejects the write
    with a conflict, which is neither "not found" nor namespace-terminating;
    the sync still returns no error, and the retry policy forgets the key. *)
Theorem syncDeployment_discards_status_write_error :
  env_client_UpdateStatus Fixture.rejecting
    (setObservedGeneration Fixture.selectAll 3) = inr Fixture.conflict
  ∧ IsNotFound (Some Fixture.conflict) = false
  ∧ HasStatusCause Fixture.conflict NamespaceTerminatingCause = false
  ∧ syncDeployment Fixture.rejecting "default/all" Fixture.w0
    = (None,
       mkWorld emptyQueue
         [EDeploymentGet "default" "all";
          EEventf Fixture.selectAll EventTypeWarning "SelectingAll"
                  selectingAllMessage;
          EUpdateStatus (setObservedGeneration Fixture.selectAll 3)])
  ∧ effects (processKey Fixture.rejecting "default/all") Fixture.w0
    = [EDeploymentGet "default" "all";
       EEventf Fixture.selectAll EventTypeWarning "SelectingAll"
               selectingAllMessage;
       EUpdateStatus (setObservedGeneration Fixture.selectAll 3);
       EQueueForget "default/all"].
Proof. repeat split; by vm_compute. Qed.

(** * Further properties of the controller *)

(** ** What the event handlers never do *)

Lemma handlerStep_refl w : handlerStep w w.
Proof.
  repeat split; [done |]. exists []. split; [by rewrite app_nil_r | constructor].
Qed.

Lemma handlerStep_trans w1 w2 w3 :
  handlerStep w1 w2 → handlerStep w2 w3 → handlerStep w1 w3.
Proof.
  intros (Hd1 & Hr1 & Hn1 & r1 & Ht1 & Hf1) (Hd2 & Hr2 & Hn2 & r2 & Ht2 & Hf2).
  repeat split; [congruence | congruence | auto |].
  exists (r1 ++ r2)%list. split.
  - by rewrite Ht2, Ht1, app_assoc.
  - by apply Forall_app.
Qed.

Lemma handlerStep_ret {A} (a : A) w : handlerStep w (final (ret a) w).
Proof. apply handlerStep_refl. Qed.

Lemma handlerStep_bind {A B} (m : M A) (k : A → M B) w :
  handlerStep w (final m w) →
  (∀ a w1, handlerStep w1 (final (k a) w1)) →
  handlerStep w (final (bind m k) w).
Proof.
  intros Hm Hk. rewrite final_bind. eapply handlerStep_trans; [exact Hm | apply Hk].
Qed.

Lemma handlerStep_emit e w :
  handlerEffect e = true → handlerStep w (final (emit e) w).
Proof.
  intros He. repeat split; [done |]. exists [e]. split; [done |].
  by constructor.
Qed.

Lemma handlerStep_queueAdd key w : handlerStep w (final (queueAdd key) w).
Proof.
  unfold queueAdd, final, bind, emit, onQueue, queue_Add; simpl.
  case_bool_decide as Hin; simpl.
  - repeat split; [done |]. exists [EQueueAdd key]. split; [done |].
    by constructor.
  - repeat split.
    + intros Hnd. apply NoDup_app. repeat split; [done | | apply NoDup_singleton].
      intros k Hk ->%list_elem_of_singleton. done.
    + exists [EQueueAdd key]. split; [done |]. by constructor.
Qed.

Lemma handlerStep_enqueue d w : handlerStep w (final (enqueueDeployment d) w).
Proof.
  unfold enqueueDeployment, enqueue, KeyFunc. apply handlerStep_queueAdd.
Qed.

Lemma handlerStep_forEach_enqueue ds w :
  handlerStep w (final (forEach enqueueDeployment ds) w).
Proof.
  revert w. induction ds as [| d ds IH]; intros w; simpl.
  - apply handlerStep_refl.
  - apply handlerStep_bind; [apply handlerStep_enqueue | intros _ w1; apply IH].
Qed.

(** Break a handler down to its calls, each of which is a handler step. *)
Ltac handler_steps :=
  repeat first
    [ apply handlerStep_ret
    | apply handlerStep_enqueue
    | apply handlerStep_forEach_enqueue
    | apply handlerStep_queueAdd
    | apply handlerStep_emit; reflexivity
    | apply handlerStep_bind; [| intros ? ?]
    | match goal with
      | |- handlerStep _ (final (match ?x with _ => _ end) _) => destruct x
      end ].

Section HandlerSteps.

Variable E : Env.

Lemma handlerStep_resolveControllerRef ns ref w :
  handlerStep w (final (resolveControllerRef E ns ref) w).
Proof. unfold resolveControllerRef, dLister_Get. handler_steps. Qed.

Lemma handlerStep_getDeploymentForPod pod w :
  handlerStep w (final (getDeploymentForPod E pod) w).
Proof.
  unfold getDeploymentForPod, rsLister_Get.
  handler_steps; apply handlerStep_resolveControllerRef.
Qed.

Lemma handlerStep_getDeploymentsForReplicaSet rs w :
  handlerStep w (final (getDeploymentsForReplicaSet E rs) w).
Proof.
  unfold getDeploymentsForReplicaSet, GetDeploymentsForReplicaSet.
  handler_steps.
Qed.

Lemma handlerStep_getPodMapForDeployment d rsList w :
  handlerStep w (final (getPodMapForDeployment E d rsList) w).
Proof. unfold getPodMapForDeployment, podLister_List. handler_steps. Qed.

Lemma handlerStep_deleteReplicaSet obj w :
  handlerStep w (final (deleteReplicaSet E obj) w).
Proof.
  unfold deleteReplicaSet, HandleError. cbv zeta.
  handler_steps; apply handlerStep_resolveControllerRef.
Qed.

Lemma handlerStep_addReplicaSet rs w :
  handlerStep w (final (addReplicaSet E rs) w).
Proof.
  unfold addReplicaSet.
  handler_steps;
    first [ apply handlerStep_deleteReplicaSet
          | apply handlerStep_resolveControllerRef
          | apply handlerStep_getDeploymentsForReplicaSet ].
Qed.

Lemma handlerStep_updateReplicaSet oldRS curRS w :
  handlerStep w (final (updateReplicaSet E oldRS curRS) w).
Proof.
  unfold updateReplicaSet. cbv zeta.
  handler_steps;
    first [ apply handlerStep_resolveControllerRef
          | apply handlerStep_getDeploymentsForReplicaSet ].
Qed.

Lemma handlerStep_deletePod obj w :
  handlerStep w (final (deletePod E obj) w).
Proof.
  unfold deletePod, HandleError, ListReplicaSets. cbv zeta.
  handler_steps;
    first [ apply handlerStep_getDeploymentForPod
          | apply handlerStep_getPodMapForDeployment ].
Qed.

End HandlerSteps.

(** The event handlers only read and enqueue. Whatever the object handed to
    them, the seven handlers registered with the informers add to the trace
    only cache reads, client listings, error reports and [queue.Add] calls:
    they write nothing to the store, emit no event, and neither forget nor
    rate-limit a key. The delayed list and the attempt counters are left as
    they were, and a queue without duplicates stays without duplicates. *)
Theorem handlers_only_read_and_enqueue E w :
  (∀ d, handlerStep w (final (addDeployment d) w))
  ∧ (∀ oldD curD, handlerStep w (final (updateDeployment oldD curD) w))
  ∧ (∀ obj, handlerStep w (final (deleteDeployment obj) w))
  ∧ (∀ rs, handlerStep w (final (addReplicaSet E rs) w))
  ∧ (∀ oldRS curRS, handlerStep w (final (updateReplicaSet E oldRS curRS) w))
  ∧ (∀ obj, handlerStep w (final (deleteReplicaSet E obj) w))
  ∧ (∀ obj, handlerStep w (final (deletePod E obj) w)).
Proof.
  repeat apply conj; intros.
  - apply handlerStep_enqueue.
  - apply handlerStep_enqueue.
  - unfold deleteDeployment, HandleError. cbv zeta. handler_steps.
  - apply handlerStep_addReplicaSet.
  - apply handlerStep_updateReplicaSet.
  - apply handlerStep_deleteReplicaSet.
  - apply handlerStep_deletePod.
Qed.

(** ** The Deployment handlers *)

(** [deleteDeployment] enqueues the key of the Deployment it is handed,
    directly or inside a tombstone, and does nothing else; handed anything
    else, it reports an error to the process-wide handler and leaves the
    queue as it was. *)
Theorem deleteDeployment_unwraps obj w :
  (∀ d, (obj = ObjDeployment d ∨ ∃ k, obj = ObjTombstone k (ObjDeployment d)) →
        deleteDeployment obj w
        = (tt, mkWorld (queue_Add (keyOf d) (w_queue w))
                       (w_trace w ++ [EQueueAdd (keyOf d)])))
  ∧ ((∀ d, obj ≠ ObjDeployment d ∧ ∀ k, obj ≠ ObjTombstone k (ObjDeployment d)) →
     ∃ err, deleteDeployment obj w
            = (tt, mkWorld (w_queue w) (w_trace w ++ [EHandleError err]))).
Proof.
  split.
  - by intros d [-> | [k ->]].
  - intros Hnot.
    destruct obj as [d | | | k inner |]; try (by eexists).
    + by destruct (Hnot d) as [? _].
    + destruct inner as [d | | | |]; try (by eexists).
      by destruct (Hnot d) as [_ Hk]; destruct (Hk k).
Qed.

(** ** The walk from a pod to its Deployment *)

(** [getDeploymentForPod] returns a Deployment exactly when both hops
    verify: the pod's controller reference has the ReplicaSet kind and names
    a cached ReplicaSet with the same unique-id, and that ReplicaSet's
    controller reference has the Deployment kind and names, in the
    ReplicaSet's namespace, a cached Deployment with the same unique-id. *)
Theorem getDeploymentForPod_verified E pod w d :
  result (getDeploymentForPod E pod) w = Some d
  ↔ ∃ rsRef rs dRef,
      GetControllerOf pod = Some rsRef
      ∧ ref_Kind rsRef = replicaSetKind
      ∧ env_rsLister_Get E (Namespace (pod_meta pod)) (ref_Name rsRef) = inl rs
      ∧ UID (rs_meta rs) = ref_UID rsRef
      ∧ GetControllerOf rs = Some dRef
      ∧ ref_Kind dRef = controllerKind_Kind
      ∧ env_dLister_Get E (Namespace (rs_meta rs)) (ref_Name dRef) = inl d
      ∧ UID (d_meta d) = ref_UID dRef.
Proof.
  unfold result, getDeploymentForPod.
  destruct (GetControllerOf pod) as [rsRef |] eqn:Hpod;
    [| split; [done | by intros (? & ? & ? & ? & _)]].
  case_bool_decide as Hk1;
    [split; [done | intros (? & ? & ? & [= <-] & ? & _); done] |].
  unfold bind at 1. unfold rsLister_Get at 1, bind at 1, emit, ret.
  cbn beta iota.
  destruct (env_rsLister_Get E _ (ref_Name rsRef)) as [rs | err] eqn:Hrs;
    [| split; [done | intros (? & ? & ? & [= <-] & _ & ? & _); congruence]].
  case_bool_decide as Hu1;
    [split; [done | intros (? & ? & ? & [= <-] & _ & ? & ? & _); congruence] |].
  destruct (GetControllerOf rs) as [dRef |] eqn:Hrsref;
    [| split; [done | intros (? & ? & ? & [= <-] & _ & ? & _ & ? & _); congruence]].
  rewrite resolveControllerRef_run.
  split.
  - case_bool_decide as Hk2; [done |]. simpl.
    destruct (env_dLister_Get E _ (ref_Name dRef)) as [d' |] eqn:Hd; [| done].
    case_bool_decide as Hu2; [done |]. intros [= ->].
    by exists rsRef, rs, dRef.
  - intros (rsRef' & rs' & dRef' & [= <-] & _ & Hrs' & _ & Hrsref' & Hk2 & Hd & Hu2).
    rewrite Hrs in Hrs'. injection Hrs' as <-.
    rewrite Hrsref in Hrsref'. injection Hrsref' as <-.
    rewrite bool_decide_eq_false_2 by (by intros []). simpl.
    rewrite Hd. by rewrite bool_decide_eq_false_2 by (by intros []).
Qed.

Lemma getDeploymentForPod_verified_witness :
  result (getDeploymentForPod Fixture.cluster Fixture.webPod) Fixture.w0
    = Some Fixture.web
  ∧ result (getDeploymentForPod Fixture.withJob Fixture.jobPod) Fixture.w0
    = None.
Proof.
  split.
  - apply (getDeploymentForPod_verified Fixture.cluster Fixture.webPod
             Fixture.w0 Fixture.web).
    exists (Fixture.controllerRef "ReplicaSet" "web-1" "rs-1"), Fixture.webRS,
      (Fixture.controllerRef "Deployment" "web" "d-1").
    repeat split; by vm_compute.
  - by vm_compute.
Defined.

(** ** The ReplicaSet handlers *)

Lemma enqueue_keyOf d w :
  enqueueDeployment d w
  = (tt, mkWorld (queue_Add (keyOf d) (w_queue w))
                 (w_trace w ++ [EQueueAdd (keyOf d)])).
Proof. reflexivity. Qed.

Lemma forEach_enqueue_run ds w :
  forEach enqueueDeployment ds w
  = (tt, mkWorld (foldl (λ q d, queue_Add (keyOf d) q) (w_queue w) ds)
                 (w_trace w ++ enqueues ds)).
Proof.
  revert w. induction ds as [| d ds IH]; intros w; simpl.
  - unfold ret, enqueues. simpl. rewrite app_nil_r. by destruct w.
  - unfold bind. rewrite enqueue_keyOf, IH. simpl.
    unfold enqueues. simpl. by rewrite <- app_assoc.
Qed.

Lemma foldl_queue_Add_mono ds q k :
  k ∈ q_items q → k ∈ q_items (foldl (λ q d, queue_Add (keyOf d) q) q ds).
Proof.
  revert q. induction ds as [| d ds IH]; intros q Hk; simpl; [done |].
  apply IH. by apply queue_Add_mono.
Qed.

Lemma foldl_queue_Add_elem ds q d :
  d ∈ ds → keyOf d ∈ q_items (foldl (λ q d, queue_Add (keyOf d) q) q ds).
Proof.
  revert q. induction ds as [| d' ds IH]; intros q Hd; simpl.
  - by apply elem_of_nil in Hd.
  - apply elem_of_cons in Hd as [-> | Hd].
    + apply foldl_queue_Add_mono, queue_Add_elem.
    + by apply IH.
Qed.

Lemma getDeploymentsForReplicaSet_matching E rs w :
  getDeploymentsForReplicaSet E rs w
  = (matching E rs,
     mkWorld (w_queue w) (w_trace w ++ [EGetDeploymentsForReplicaSet rs])).
Proof.
  unfold getDeploymentsForReplicaSet, GetDeploymentsForReplicaSet, matching,
    bind, emit, ret. cbn beta iota.
  destruct (env_GetDeploymentsForReplicaSet E rs) as [ds |]; [| done].
  case_bool_decide as Hlen; [| done].
  by apply length_zero_iff_nil in Hlen as ->.
Qed.

(** The orphan branch shared by the add and the update handler. *)
Lemma orphan_matching_run E rs w :
  (let* ds := getDeploymentsForReplicaSet E rs in
   match ds with
   | [] => ret tt
   | _ => forEach enqueueDeployment ds
   end) w
  = (tt, mkWorld (foldl (λ q d, queue_Add (keyOf d) q) (w_queue w)
                        (matching E rs))
                 (w_trace w ++ EGetDeploymentsForReplicaSet rs
                            :: enqueues (matching E rs))).
Proof.
  unfold bind at 1. rewrite getDeploymentsForReplicaSet_matching.
  destruct (matching E rs) as [| d ds] eqn:Hm.
  - done.
  - rewrite forEach_enqueue_run. simpl. by rewrite <- app_assoc.
Qed.

(** An orphan that shows up wakes every Deployment that could adopt it. For
    a ReplicaSet with no deletion timestamp and no controller reference,
    [addReplicaSet] asks once for the matching Deployments and enqueues each
    of them, in the order returned; when that lookup fails or finds none,
    nothing is enqueued. Every one of them is in the queue afterwards. *)
Theorem addReplicaSet_orphan E rs w :
  DeletionTimestamp (rs_meta rs) = None →
  GetControllerOf rs = None →
  effects (addReplicaSet E rs) w
    = EGetDeploymentsForReplicaSet rs :: enqueues (matching E rs)
  ∧ (∀ d, d ∈ matching E rs →
          keyOf d ∈ q_items (w_queue (final (addReplicaSet E rs) w)))
  ∧ (∀ err, env_GetDeploymentsForReplicaSet E rs = inr err →
            effects (addReplicaSet E rs) w = [EGetDeploymentsForReplicaSet rs]).
Proof.
  intros Hdt Href.
  assert (Hrun : addReplicaSet E rs w
    = (tt, mkWorld (foldl (λ q d, queue_Add (keyOf d) q) (w_queue w)
                          (matching E rs))
                   (w_trace w ++ EGetDeploymentsForReplicaSet rs
                              :: enqueues (matching E rs)))).
  { unfold addReplicaSet. rewrite Hdt, Href. apply orphan_matching_run. }
  assert (Heff : effects (addReplicaSet E rs) w
                 = EGetDeploymentsForReplicaSet rs :: enqueues (matching E rs)).
  { unfold effects, final. rewrite Hrun. simpl. apply drop_app_length. }
  split; [exact Heff |]. split.
  - intros d Hd. unfold final. rewrite Hrun. simpl.
    by apply foldl_queue_Add_elem.
  - intros err Herr. rewrite Heff. unfold matching. by rewrite Herr.
Qed.

Lemma addReplicaSet_orphan_witness :
  effects (addReplicaSet Fixture.cluster Fixture.releasedRS) Fixture.w0
  = [EGetDeploymentsForReplicaSet Fixture.releasedRS;
     EQueueAdd "default/web"; EQueueAdd "default/all"].
Proof.
  destruct (addReplicaSet_orphan Fixture.cluster Fixture.releasedRS Fixture.w0)
    as [Heff _]; [reflexivity | reflexivity |].
  exact Heff.
Defined.

Lemma resolveControllerRef_Some E ns ref w d :
  result (resolveControllerRef E ns ref) w = Some d →
  ∀ w', resolveControllerRef E ns ref w'
        = (Some d, mkWorld (w_queue w')
                           (w_trace w' ++ [EDeploymentGet ns (ref_Name ref)])).
Proof.
  unfold result. rewrite resolveControllerRef_run. intros Hres w'.
  rewrite resolveControllerRef_run.
  case_bool_decide; [done |]. simpl in Hres. by rewrite Hres.
Qed.

(** Resolving an owner and enqueueing it, when it resolves. *)
Lemma resolve_enqueue_run E ns ref d w :
  result (resolveControllerRef E ns ref) w = Some d →
  ∀ w', (let* d := resolveControllerRef E ns ref in
         match d with
         | None => ret tt
         | Some d => enqueueDeployment d
         end) w'
        = (tt, mkWorld (queue_Add (keyOf d) (w_queue w'))
                       (w_trace w' ++ [EDeploymentGet ns (ref_Name ref);
                                       EQueueAdd (keyOf d)])).
Proof.
  intros Hres w'. unfold bind.
  rewrite (resolveControllerRef_Some E ns ref w d Hres w').
  rewrite enqueue_keyOf. simpl. by rewrite <- app_assoc.
Qed.

(** Deleting an orphan wakes nobody: for a ReplicaSet without controller
    reference, handed over directly or inside a tombstone,
    [deleteReplicaSet] does nothing at all. Whatever it is handed, the only
    enqueue it can make is that of the Deployment its ReplicaSet's
    controller reference resolves to. *)
Theorem deleteReplicaSet_enqueues_owner_only E obj w :
  (∀ rs, (obj = ObjReplicaSet rs ∨ ∃ k, obj = ObjTombstone k (ObjReplicaSet rs)) →
         GetControllerOf rs = None →
         deleteReplicaSet E obj w = (tt, w))
  ∧ (∀ e, e ∈ effects (deleteReplicaSet E obj) w →
          isEnqueue e = true →
          ∃ rs ref d,
            (obj = ObjReplicaSet rs ∨ ∃ k, obj = ObjTombstone k (ObjReplicaSet rs))
            ∧ GetControllerOf rs = Some ref
            ∧ result (resolveControllerRef E (Namespace (rs_meta rs)) ref) w
              = Some d
            ∧ e = EQueueAdd (keyOf d)).
Proof.
  split.
  - intros rs [-> | [k ->]] Href; unfold deleteReplicaSet; by rewrite Href.
  - intros e Hin Henq.
    assert (Hrs : ∃ rs, obj = ObjReplicaSet rs
                        ∨ ∃ k, obj = ObjTombstone k (ObjReplicaSet rs)).
    { destruct obj as [| rs | | k inner |];
        [| by eauto | | destruct inner; [| by eauto | | |] |];
        unfold deleteReplicaSet in Hin; run_monad_in Hin;
        rewrite drop_app_length in Hin; not_enqueued Hin Henq. }
    destruct Hrs as [rs Hobj].
    assert (Hrun : deleteReplicaSet E obj = deleteReplicaSet E (ObjReplicaSet rs))
      by (by destruct Hobj as [-> | [k ->]]).
    rewrite Hrun in Hin. clear Hrun.
    unfold deleteReplicaSet in Hin. cbv zeta in Hin. cbn beta iota in Hin.
    destruct (GetControllerOf rs) as [ref |] eqn:Href.
    2:{ run_monad_in Hin. rewrite drop_all in Hin. by apply elem_of_nil in Hin. }
    destruct (result (resolveControllerRef E (Namespace (rs_meta rs)) ref) w)
      as [d |] eqn:Hres.
    + exists rs, ref, d. do 3 (split; [done |]).
      unfold effects, final in Hin.
      rewrite (resolve_enqueue_run E _ ref d w Hres w) in Hin. simpl in Hin.
      rewrite drop_app_length in Hin.
      apply elem_of_cons in Hin as [-> | Hin]; [discriminate Henq |].
      by apply list_elem_of_singleton in Hin.
    + exfalso. unfold effects, final, bind in Hin.
      unfold result in Hres. rewrite resolveControllerRef_run in Hin, Hres.
      case_bool_decide; simpl in *.
      * rewrite drop_all in Hin. by apply elem_of_nil in Hin.
      * rewrite Hres in Hin. simpl in Hin. rewrite drop_app_length in Hin.
        not_enqueued Hin Henq.
Qed.

(** A change of owner wakes both Deployments, the old one first. When the
    resource-versions differ, both versions carry a controller reference,
    the two references differ and each resolves, [updateReplicaSet] looks the
    old owner up and enqueues it, then looks the new owner up and enqueues
    it, and does nothing else. *)
Theorem updateReplicaSet_owner_changed E oldRS curRS oldRef curRef dOld dNew w :
  ResourceVersion (rs_meta curRS) ≠ ResourceVersion (rs_meta oldRS) →
  GetControllerOf oldRS = Some oldRef →
  GetControllerOf curRS = Some curRef →
  curRef ≠ oldRef →
  result (resolveControllerRef E (Namespace (rs_meta oldRS)) oldRef) w
    = Some dOld →
  result (resolveControllerRef E (Namespace (rs_meta curRS)) curRef) w
    = Some dNew →
  updateReplicaSet E oldRS curRS w
  = (tt, mkWorld (queue_Add (keyOf dNew) (queue_Add (keyOf dOld) (w_queue w)))
                 (w_trace w
                  ++ [EDeploymentGet (Namespace (rs_meta oldRS)) (ref_Name oldRef);
                      EQueueAdd (keyOf dOld);
                      EDeploymentGet (Namespace (rs_meta curRS)) (ref_Name curRef);
                      EQueueAdd (keyOf dNew)])).
Proof.
  intros Hrv Hold Hcur Hne Hres_old Hres_new.
  unfold updateReplicaSet.
  rewrite bool_decide_eq_false_2 by done.
  rewrite Hold, Hcur.
  rewrite bool_decide_eq_true_2 by congruence.
  unfold bind at 1.
  rewrite (resolve_enqueue_run E _ oldRef dOld w Hres_old w).
  rewrite (resolve_enqueue_run E _ curRef dNew w Hres_new). simpl.
  by rewrite <- app_assoc.
Qed.

Lemma updateReplicaSet_owner_changed_witness :
  updateReplicaSet Fixture.cluster Fixture.webRS Fixture.adoptedByAllRS
    Fixture.w0
  = (tt, mkWorld (mkQueue ["default/web"; "default/all"] [] ∅)
                 [EDeploymentGet "default" "web"; EQueueAdd "default/web";
                  EDeploymentGet "default" "all"; EQueueAdd "default/all"]).
Proof.
  apply (updateReplicaSet_owner_changed Fixture.cluster Fixture.webRS
           Fixture.adoptedByAllRS
           (Fixture.controllerRef "Deployment" "web" "d-1")
           (Fixture.controllerRef "Deployment" "all" "d-2")
           Fixture.web Fixture.selectAll Fixture.w0);
    by vm_compute.
Defined.

(** Between two orphan versions only a change of labels matters. When the
    resource-versions differ and neither version has a controller reference,
    [updateReplicaSet] does nothing at all if the labels are deeply equal,
    and otherwise asks once for the Deployments matching the new version and
    enqueues each of them. *)
Theorem updateReplicaSet_orphan E oldRS curRS w :
  ResourceVersion (rs_meta curRS) ≠ ResourceVersion (rs_meta oldRS) →
  GetControllerOf oldRS = None →
  GetControllerOf curRS = None →
  (Labels (rs_meta curRS) = Labels (rs_meta oldRS) →
     updateReplicaSet E oldRS curRS w = (tt, w))
  ∧ (Labels (rs_meta curRS) ≠ Labels (rs_meta oldRS) →
     effects (updateReplicaSet E oldRS curRS) w
     = EGetDeploymentsForReplicaSet curRS :: enqueues (matching E curRS)).
Proof.
  intros Hrv Hold Hcur. unfold effects, final, updateReplicaSet.
  rewrite bool_decide_eq_false_2 by done.
  rewrite Hold, Hcur.
  rewrite (bool_decide_eq_false_2 (None ≠ None)) by (by intros []).
  unfold bind at 1 3. unfold ret at 1 3. split; intros Hlabels.
  - by rewrite bool_decide_eq_false_2 by (by intros []).
  - rewrite bool_decide_eq_true_2 by done. simpl.
    rewrite orphan_matching_run. simpl. apply drop_app_length.
Qed.

Lemma updateReplicaSet_orphan_witness :
  updateReplicaSet Fixture.cluster Fixture.releasedSameVersionRS
    Fixture.releasedRS Fixture.w0 = (tt, Fixture.w0)
  ∧ effects (updateReplicaSet Fixture.cluster Fixture.releasedSameVersionRS
               Fixture.relabelledRS) Fixture.w0
    = [EGetDeploymentsForReplicaSet Fixture.relabelledRS;
       EQueueAdd "default/web"; EQueueAdd "default/all"].
Proof.
  destruct (updateReplicaSet_orphan Fixture.cluster
              Fixture.releasedSameVersionRS Fixture.releasedRS Fixture.w0)
    as [Hsame _]; [by vm_compute | reflexivity | reflexivity |].
  destruct (updateReplicaSet_orphan Fixture.cluster
              Fixture.releasedSameVersionRS Fixture.relabelledRS Fixture.w0)
    as [_ Hdiff]; [by vm_compute | reflexivity | reflexivity |].
  split.
  - apply Hsame. reflexivity.
  - apply Hdiff. by vm_compute.
Defined.

(** A released ReplicaSet wakes its old owner and then whoever could adopt
    it. When the resource-versions differ, the old version's controller
    reference resolves and the new version has none, [updateReplicaSet]
    enqueues the old owner and then each Deployment matching the new
    version. *)
Theorem updateReplicaSet_released E oldRS curRS oldRef dOld w :
  ResourceVersion (rs_meta curRS) ≠ ResourceVersion (rs_meta oldRS) →
  GetControllerOf oldRS = Some oldRef →
  GetControllerOf curRS = None →
  result (resolveControllerRef E (Namespace (rs_meta oldRS)) oldRef) w
    = Some dOld →
  effects (updateReplicaSet E oldRS curRS) w
  = ([EDeploymentGet (Namespace (rs_meta oldRS)) (ref_Name oldRef);
      EQueueAdd (keyOf dOld);
      EGetDeploymentsForReplicaSet curRS]
     ++ enqueues (matching E curRS))%list.
Proof.
  intros Hrv Hold Hcur Hres. unfold effects, final, updateReplicaSet.
  rewrite bool_decide_eq_false_2 by done.
  rewrite Hold, Hcur.
  rewrite (bool_decide_eq_true_2 (None ≠ Some oldRef)) by done.
  rewrite orb_true_r.
  unfold bind at 1.
  rewrite (resolve_enqueue_run E _ oldRef dOld w Hres w).
  rewrite orphan_matching_run. simpl.
  rewrite <- app_assoc. apply drop_app_length.
Qed.

Lemma updateReplicaSet_released_witness :
  effects (updateReplicaSet Fixture.cluster Fixture.webRS Fixture.releasedRS)
          Fixture.w0
  = [EDeploymentGet "default" "web"; EQueueAdd "default/web";
     EGetDeploymentsForReplicaSet Fixture.releasedRS;
     EQueueAdd "default/web"; EQueueAdd "default/all"].
Proof.
  apply (updateReplicaSet_released Fixture.cluster Fixture.webRS
           Fixture.releasedRS
           (Fixture.controllerRef "Deployment" "web" "d-1") Fixture.web
           Fixture.w0);
    by vm_compute.
Defined.

Lemma adds_refl P w : adds P w w.
Proof. exists []. split; [by rewrite app_nil_r | constructor]. Qed.

Lemma adds_trans P w1 w2 w3 : adds P w1 w2 → adds P w2 w3 → adds P w1 w3.
Proof.
  intros (r1 & Ht1 & Hf1) (r2 & Ht2 & Hf2). exists (r1 ++ r2)%list. split.
  - by rewrite Ht2, Ht1, app_assoc.
  - by apply Forall_app.
Qed.

Lemma adds_ret {A} P (a : A) w : adds P w (final (ret a) w).
Proof. apply adds_refl. Qed.

Lemma adds_bind {A B} P (m : M A) (k : A → M B) w :
  adds P w (final m w) →
  (∀ a w1, adds P w1 (final (k a) w1)) →
  adds P w (final (bind m k) w).
Proof.
  intros Hm Hk. rewrite final_bind. eapply adds_trans; [exact Hm | apply Hk].
Qed.

Lemma adds_emit (P : Effect → bool) e w :
  P e = true → adds P w (final (emit e) w).
Proof. intros He. exists [e]. split; [done | by constructor]. Qed.

Lemma adds_queueAdd (P : Effect → bool) key w :
  P (EQueueAdd key) = true → adds P w (final (queueAdd key) w).
Proof.
  intros He. exists [EQueueAdd key]. split; [done | by constructor].
Qed.

Lemma adds_effects {A} P (m : M A) w :
  adds P w (final m w) → Forall (λ e, P e = true) (effects m w).
Proof.
  intros (rest & Ht & Hf). unfold effects. rewrite Ht.
  by rewrite drop_app_length.
Qed.

Ltac adds_steps :=
  repeat first
    [ apply adds_ret
    | apply adds_queueAdd; reflexivity
    | apply adds_emit; reflexivity
    | apply adds_bind; [| intros ? ?]
    | match goal with
      | |- adds _ _ (final (match ?x with _ => _ end) _) => destruct x
      end ].

(** "If it has a ControllerRef, that's all that matters": for a ReplicaSet
    that carries a controller reference, neither the add handler nor the
    update handler (whatever the old version was) ever looks for Deployments
    that could adopt it, whether or not the reference resolves. *)
Theorem owned_replicaSet_never_matched E rs ref w :
  GetControllerOf rs = Some ref →
  Forall (λ e, isOrphanMatching e = false) (effects (addReplicaSet E rs) w)
  ∧ ∀ oldRS, Forall (λ e, isOrphanMatching e = false)
                    (effects (updateReplicaSet E oldRS rs) w).
Proof.
  intros Href.
  assert (Hconv : ∀ l, Forall (λ e, negb (isOrphanMatching e) = true) l →
                       Forall (λ e, isOrphanMatching e = false) l).
  { intros l Hl. eapply Forall_impl; [exact Hl |].
    intros e He. simpl in He.
    destruct (isOrphanMatching e); [discriminate He | done]. }
  split; [| intros oldRS]; apply Hconv, adds_effects.
  - unfold addReplicaSet, deleteReplicaSet, resolveControllerRef, dLister_Get,
      enqueueDeployment, enqueue, KeyFunc.
    cbv zeta. rewrite Href. adds_steps.
  - unfold updateReplicaSet, resolveControllerRef, dLister_Get,
      enqueueDeployment, enqueue, KeyFunc.
    cbv zeta. rewrite Href. adds_steps.
Qed.

Lemma owned_replicaSet_never_matched_witness :
  Forall (λ e, isOrphanMatching e = false)
         (effects (addReplicaSet Fixture.cluster Fixture.danglingRS) Fixture.w0)
  ∧ effects (updateReplicaSet Fixture.cluster Fixture.releasedRS
               Fixture.danglingRS) Fixture.w0
    = [EDeploymentGet "default" "gone"].
Proof.
  destruct (owned_replicaSet_never_matched Fixture.cluster Fixture.danglingRS
              (Fixture.controllerRef "Deployment" "gone" "d-7") Fixture.w0)
    as [Hadd _]; [reflexivity |].
  split; [exact Hadd | by vm_compute].
Defined.

(** ** More on the grouping helper *)

Lemma numPods_delete (m : PodMap) uid podList :
  m !! uid = Some podList →
  numPods m = (numPods (delete uid m) + length podList)%nat.
Proof.
  intros Hl. unfold numPods.
  rewrite (map_fold_delete_L _ _ uid podList m); [done | | done].
  intros. lia.
Qed.

Lemma numPods_insert (m : PodMap) uid podList podList' :
  m !! uid = Some podList →
  (numPods (<[uid := podList']> m) + length podList
   = numPods m + length podList')%nat.
Proof.
  intros Hl.
  rewrite (numPods_delete m uid podList Hl).
  rewrite (numPods_delete (<[uid := podList']> m) uid podList')
    by apply lookup_insert_eq.
  rewrite delete_insert_eq. lia.
Qed.

Lemma groupPod_numPods rsList (m : PodMap) pod :
  (∀ uid, is_Some (m !! uid) ↔ uid ∈ uidsOf rsList) →
  numPods (groupPod m pod)
  = (numPods m + if decide (ownedByOneOf rsList pod) then 1 else 0)%nat.
Proof.
  intros Hdom.
  destruct (decide (ownedByOneOf rsList pod)) as [(uid & Hu & Hin) | Hnot].
  - unfold groupPod. unfold controllerUID in Hu.
    destruct (GetControllerOf pod) as [ref |]; [| done].
    simpl in Hu. injection Hu as <-.
    apply Hdom in Hin as [podList Hl]. rewrite Hl.
    pose proof (numPods_insert m (ref_UID ref) podList (podList ++ [pod]) Hl)
      as Hn.
    rewrite length_app in Hn. simpl in Hn. lia.
  - unfold groupPod.
    destruct (GetControllerOf pod) as [ref |] eqn:Href; [| lia].
    destruct (m !! ref_UID ref) as [podList |] eqn:Hl; [| lia].
    exfalso. apply Hnot. exists (ref_UID ref). split.
    + unfold controllerUID. by rewrite Href.
    + apply Hdom. by eexists.
Qed.

Lemma groupPod_dom rsList (m : PodMap) pod :
  (∀ uid, is_Some (m !! uid) ↔ uid ∈ uidsOf rsList) →
  ∀ uid, is_Some (groupPod m pod !! uid) ↔ uid ∈ uidsOf rsList.
Proof.
  intros Hdom uid. rewrite groupPod_lookup, <- Hdom.
  case_decide; [| done]. by rewrite fmap_is_Some.
Qed.

Lemma foldl_groupPod_numPods rsList pods (m : PodMap) :
  (∀ uid, is_Some (m !! uid) ↔ uid ∈ uidsOf rsList) →
  numPods (foldl groupPod m pods)
  = (numPods m + length (filter (ownedByOneOf rsList) pods))%nat.
Proof.
  revert m. induction pods as [| pod pods IH]; intros m Hdom; cbn [foldl].
  - rewrite filter_nil. simpl. lia.
  - rewrite IH by (by apply groupPod_dom).
    rewrite (groupPod_numPods rsList) by done.
    rewrite filter_cons. case_decide; simpl; lia.
Qed.

Lemma initPodMap_dom rsList uid :
  is_Some (initPodMap rsList !! uid) ↔ uid ∈ uidsOf rsList.
Proof.
  rewrite initPodMap_lookup.
  case_decide; split; intros Hx; try done; try (by eexists); by destruct Hx.
Qed.

Lemma initPodMap_numPods rsList : numPods (initPodMap rsList) = 0%nat.
Proof.
  apply numPods_zero. intros uid podList. rewrite initPodMap_lookup.
  case_decide; [by intros [= <-] | done].
Qed.

(** Each claimed group gets exactly the listed pods that point to it. When
    the grouping helper returns a map, the list under the unique-id of each
    ReplicaSet passed in holds the pods the lister returned (for the
    Deployment's namespace and compiled selector) whose controller reference
    carries that unique-id, all of them, once each, in the order listed;
    nothing else about a pod, such as its phase, is looked at. *)
Theorem getPodMapForDeployment_contents E d rsList w podMap :
  result (getPodMapForDeployment E d rsList) w = inl podMap →
  ∃ selector pods,
    LabelSelectorAsSelector E (spec_Selector (d_Spec d)) = inl selector
    ∧ env_podLister_List E (Namespace (d_meta d)) selector = inl pods
    ∧ ∀ rs, rs ∈ rsList →
        podMap !! UID (rs_meta rs)
        = Some (filter (λ pod, controllerUID pod = Some (UID (rs_meta rs)))
                       pods).
Proof.
  intros (selector & pods & Hsel & Hpods & ->)%getPodMapForDeployment_inl.
  exists selector, pods. do 2 (split; [done |]).
  intros rs Hrs. rewrite podMap_lookup.
  rewrite decide_True; [done |].
  unfold uidsOf. apply list_elem_of_fmap. by exists rs.
Qed.

Lemma getPodMapForDeployment_contents_witness :
  ∃ selector pods,
    LabelSelectorAsSelector Fixture.cluster
      (spec_Selector (d_Spec Fixture.web)) = inl selector
    ∧ env_podLister_List Fixture.cluster (Namespace (d_meta Fixture.web))
        selector = inl pods
    ∧ ∀ rs, rs ∈ [Fixture.webRS; Fixture.idleRS] →
        ({[ "rs-1" := [Fixture.webPod]; "rs-2" := [] ]} : PodMap)
          !! UID (rs_meta rs)
        = Some (filter (λ pod, controllerUID pod = Some (UID (rs_meta rs)))
                       pods).
Proof.
  apply (getPodMapForDeployment_contents Fixture.cluster Fixture.web
           [Fixture.webRS; Fixture.idleRS] Fixture.w0
           {[ "rs-1" := [Fixture.webPod]; "rs-2" := [] ]}).
  by vm_compute.
Defined.

(** The zero check of the Pod delete handler counts what it should: the
    number of pods in the returned map is the number of listed pods whose
    controller reference carries the unique-id of one of the ReplicaSets
    passed in. A listed pod with no controller reference, or with one that
    points elsewhere, is not counted; no pod is counted twice, even when
    two of the ReplicaSets passed in share a unique-id. *)
Theorem getPodMapForDeployment_numPods E d rsList w podMap :
  result (getPodMapForDeployment E d rsList) w = inl podMap →
  ∃ selector pods,
    LabelSelectorAsSelector E (spec_Selector (d_Spec d)) = inl selector
    ∧ env_podLister_List E (Namespace (d_meta d)) selector = inl pods
    ∧ numPods podMap = length (filter (ownedByOneOf rsList) pods).
Proof.
  intros (selector & pods & Hsel & Hpods & ->)%getPodMapForDeployment_inl.
  exists selector, pods. do 2 (split; [done |]).
  rewrite (foldl_groupPod_numPods rsList) by apply initPodMap_dom.
  by rewrite initPodMap_numPods.
Qed.

Lemma getPodMapForDeployment_numPods_witness :
  ∃ selector pods,
    LabelSelectorAsSelector Fixture.cluster
      (spec_Selector (d_Spec Fixture.web)) = inl selector
    ∧ env_podLister_List Fixture.cluster (Namespace (d_meta Fixture.web))
        selector = inl pods
    ∧ numPods ({[ "rs-1" := [Fixture.webPod]; "rs-2" := [] ]} : PodMap)
      = length (filter (ownedByOneOf [Fixture.webRS; Fixture.idleRS]) pods).
Proof.
  apply (getPodMapForDeployment_numPods Fixture.cluster Fixture.web
           [Fixture.webRS; Fixture.idleRS] Fixture.w0
           {[ "rs-1" := [Fixture.webPod]; "rs-2" := [] ]}).
  by vm_compute.
Defined.

(** The grouping helper fails exactly when the selector does not compile or
    the pod listing fails, and returns that error as it is; when the
    selector does not compile the pods are not even listed. *)
Theorem getPodMapForDeployment_errors E d rsList w err :
  (result (getPodMapForDeployment E d rsList) w = inr err
   ↔ LabelSelectorAsSelector E (spec_Selector (d_Spec d)) = inr err
     ∨ ∃ selector,
         LabelSelectorAsSelector E (spec_Selector (d_Spec d)) = inl selector
         ∧ env_podLister_List E (Namespace (d_meta d)) selector = inr err)
  ∧ (LabelSelectorAsSelector E (spec_Selector (d_Spec d)) = inr err →
     getPodMapForDeployment E d rsList w = (inr err, w)).
Proof.
  unfold result, getPodMapForDeployment. split.
  - destruct (LabelSelectorAsSelector E _) as [selector | err'].
    + unfold bind, podLister_List, emit, ret. cbn beta iota.
      destruct (env_podLister_List E _ selector) as [pods | err''] eqn:Hpods;
        simpl.
      * split; [done |]. intros [? | (sel & [= <-] & ?)]; congruence.
      * split.
        -- intros [= ->]. right. by exists selector.
        -- intros [? | (sel & [= <-] & ?)]; congruence.
    + simpl. split.
      * intros [= ->]. by left.
      * intros [[= ->] | (sel & ? & _)]; done.
  - by intros ->.
Qed.

(** ** Claiming the ReplicaSets *)

(** [getReplicaSetsForDeployment] claims nothing when it cannot: when the
    cached listing fails, that error is returned as it is; when the selector
    does not compile, a new plain error is returned in place of the
    conversion error, so that whatever the conversion error was tagged with,
    the returned one is neither "not found" nor namespace-terminating. In
    both cases the listing is the only call made. *)
Theorem getReplicaSetsForDeployment_errors E d w :
  (∀ err, env_rsLister_List E (Namespace (d_meta d)) = inr err →
          getReplicaSetsForDeployment E d w
          = (inr err, mkWorld (w_queue w)
                        (w_trace w ++ [EReplicaSetList (Namespace (d_meta d))])))
  ∧ (∀ rsAll err,
       env_rsLister_List E (Namespace (d_meta d)) = inl rsAll →
       LabelSelectorAsSelector E (spec_Selector (d_Spec d)) = inr err →
       ∃ err',
         getReplicaSetsForDeployment E d w
         = (inr err', mkWorld (w_queue w)
                        (w_trace w ++ [EReplicaSetList (Namespace (d_meta d))]))
         ∧ IsNotFound (Some err') = false
         ∧ HasStatusCause err' NamespaceTerminatingCause = false).
Proof.
  split.
  - intros err Hlist.
    unfold getReplicaSetsForDeployment, rsLister_List, bind, emit, ret.
    cbn beta iota. by rewrite Hlist.
  - intros rsAll err Hlist Hsel. eexists.
    unfold getReplicaSetsForDeployment, rsLister_List, bind, emit, ret.
    cbn beta iota. rewrite Hlist. cbn beta iota. rewrite Hsel.
    split; [reflexivity |]. by split.
Qed.

(** What is handed to the controller-reference manager. When the listing
    succeeds and the selector compiles, [getReplicaSetsForDeployment]
    answers what [ClaimReplicaSets] answers for every ReplicaSet of the
    namespace, not only those the selector matches. The adoption check that
    goes with the call succeeds only with a Deployment freshly read from the
    store under the same namespace and name and carrying the same unique-id;
    a failed read is passed on as it is. *)
Theorem getReplicaSetsForDeployment_claims E d w rsAll selector :
  env_rsLister_List E (Namespace (d_meta d)) = inl rsAll →
  LabelSelectorAsSelector E (spec_Selector (d_Spec d)) = inl selector →
  ∃ canAdopt,
    getReplicaSetsForDeployment E d w
    = (env_ClaimReplicaSets E d selector canAdopt rsAll,
       mkWorld (w_queue w)
         (w_trace w ++ [EReplicaSetList (Namespace (d_meta d));
                        EClaimReplicaSets d rsAll]))
    ∧ (∀ fresh, canAdopt = inl fresh
                ↔ env_client_Get E (Namespace (d_meta d)) (Name (d_meta d))
                  = inl fresh
                  ∧ UID (d_meta fresh) = UID (d_meta d))
    ∧ (∀ err, env_client_Get E (Namespace (d_meta d)) (Name (d_meta d))
              = inr err →
              canAdopt = inr err).
Proof.
  intros Hlist Hsel. eexists. split; [| split].
  - unfold getReplicaSetsForDeployment, rsLister_List, bind, emit, ret.
    cbn beta iota. rewrite Hlist. cbn beta iota. rewrite Hsel.
    unfold ClaimReplicaSets, bind, emit, ret. cbn beta iota zeta.
    simpl. rewrite <- app_assoc. reflexivity.
  - intros fresh.
    destruct (env_client_Get E _ _) as [fresh' | err]; [| by split; [| intros []]].
    case_bool_decide as Huid.
    + split; [done |]. intros [[= ->] ?]. done.
    + split.
      * by intros [= ->].
      * by intros [[= ->] _].
  - by intros err ->.
Qed.

Lemma getReplicaSetsForDeployment_claims_witness :
  result (getReplicaSetsForDeployment Fixture.cluster Fixture.web) Fixture.w0
    = inl [Fixture.webRS; Fixture.idleRS]
  ∧ effects (getReplicaSetsForDeployment Fixture.cluster Fixture.web)
            Fixture.w0
    = [EReplicaSetList "default";
       EClaimReplicaSets Fixture.web [Fixture.webRS; Fixture.idleRS]].
Proof.
  destruct (getReplicaSetsForDeployment_claims Fixture.cluster Fixture.web
              Fixture.w0 [Fixture.webRS; Fixture.idleRS] [])
    as (canAdopt & Hrun & _); [reflexivity | reflexivity |].
  unfold result, effects, final. rewrite Hrun. by split.
Defined.

(** ** The retry budget *)

Lemma failures_requeued e key w n :
  HasStatusCause e NamespaceTerminatingCause = false →
  (NumRequeues key (w_queue w) + n ≤ 15)%nat →
  w_trace (final (failures n e key) w)
    = (w_trace w ++ repeat (EQueueAddRateLimited key) n)%list
  ∧ q_items (w_queue (final (failures n e key) w)) = q_items (w_queue w)
  ∧ q_delayed (w_queue (final (failures n e key) w))
    = (q_delayed (w_queue w)
       ++ ((λ i, (key, backoff_ms (NumRequeues key (w_queue w) + i)))
             <$> seq 0 n))%list
  ∧ NumRequeues key (w_queue (final (failures n e key) w))
    = (NumRequeues key (w_queue w) + n)%nat.
Proof.
  intros Hcause. induction n as [| n IH]; intros Hn.
  - unfold final; simpl. rewrite !app_nil_r. repeat split. lia.
  - destruct IH as (Ht & Hi & Hd & Hc); [lia |].
    cbn [failures]. rewrite final_bind. unfold final at 1 3 5 7.
    rewrite (handleErr_failing_run e key _ Hcause).
    rewrite bool_decide_eq_true_2 by (unfold maxRetries; lia).
    cbn [snd w_trace w_queue q_items q_delayed queue_AddRateLimited].
    rewrite Ht, Hi, Hd, Hc. repeat split.
    + rewrite <- app_assoc. f_equal. simpl. by rewrite repeat_cons.
    + rewrite seq_S, fmap_app, app_assoc. reflexivity.
    + unfold NumRequeues at 1. simpl. rewrite lookup_insert_eq. simpl.
      rewrite Hc. lia.
Qed.

(** The budget is fifteen retries, that is sixteen failing syncs. From a
    key whose attempt counter is zero, each of the first fifteen failures in
    a row (with an error that is not namespace-terminating) only requeues
    the key, after 5ms, 10ms, ... doubling up to 81920ms; the sixteenth
    failure requeues nothing, hands the error to the process-wide handler
    and clears the counter. *)
Theorem retry_budget e key w :
  HasStatusCause e NamespaceTerminatingCause = false →
  NumRequeues key (w_queue w) = 0%nat →
  (∀ n, (n ≤ 15)%nat →
        effects (failures n e key) w = repeat (EQueueAddRateLimited key) n
        ∧ q_delayed (w_queue (final (failures n e key) w))
          = (q_delayed (w_queue w)
             ++ ((λ i, (key, (5 * 2 ^ i)%nat)) <$> seq 0 n))%list)
  ∧ effects (failures 16 e key) w
    = (repeat (EQueueAddRateLimited key) 15
       ++ [EHandleError e; EQueueForget key])%list
  ∧ NumRequeues key (w_queue (final (failures 16 e key) w)) = 0%nat.
Proof.
  intros Hcause Hzero. split; [| split].
  - intros n Hn.
    destruct (failures_requeued e key w n Hcause) as (Ht & _ & Hd & _);
      [lia |].
    split.
    + by apply effects_app.
    + rewrite Hd. by rewrite Hzero.
  - destruct (failures_requeued e key w 15 Hcause) as (Ht & _ & _ & Hc);
      [lia |].
    apply effects_app.
    change (failures 16 e key)
      with (let* _ := failures 15 e key in handleErr (Some e) key).
    rewrite final_bind. unfold final at 1.
    rewrite (handleErr_failing_run e key _ Hcause).
    rewrite bool_decide_eq_false_2 by (unfold maxRetries; lia).
    cbn [snd w_trace]. rewrite Ht. by rewrite <- app_assoc.
  - destruct (failures_requeued e key w 15 Hcause) as (_ & _ & _ & Hc);
      [lia |].
    change (failures 16 e key)
      with (let* _ := failures 15 e key in handleErr (Some e) key).
    rewrite final_bind. unfold final at 1.
    rewrite (handleErr_failing_run e key _ Hcause).
    rewrite bool_decide_eq_false_2 by (unfold maxRetries; lia).
    cbn [snd w_queue]. apply NumRequeues_Forget.
Qed.

Lemma retry_budget_witness :
  effects (failures 16 Fixture.conflict "default/web") Fixture.w0
  = (repeat (EQueueAddRateLimited "default/web") 15
     ++ [EHandleError Fixture.conflict; EQueueForget "default/web"])%list.
Proof.
  destruct (retry_budget Fixture.conflict "default/web" Fixture.w0)
    as (_ & Hdrop & _); [reflexivity | reflexivity |].
  exact Hdrop.
Defined.

Lemma turns_malformed E key err n w :
  SplitMetaNamespaceKey E key = inr err →
  turns E n key w = failures n err key w.
Proof.
  intros Hsplit. revert w. induction n as [| n IH]; intros w; [done |].
  cbn [turns failures]. unfold bind. rewrite IH.
  destruct (failures n err key w) as [[] w1].
  unfold processKey, bind, syncDeployment. by rewrite Hsplit.
Qed.

(** A key that cannot be split is not dropped at once. The sync returns the
    splitting error without a single lookup, and the worker treats it like
    any failure: the key goes round fifteen more times before the sixteenth
    turn hands the error to the process-wide handler and forgets the key. *)
Theorem malformed_key_is_retried E key err w :
  SplitMetaNamespaceKey E key = inr err →
  HasStatusCause err NamespaceTerminatingCause = false →
  NumRequeues key (w_queue w) = 0%nat →
  syncDeployment E key w = (Some err, w)
  ∧ (∀ n, (n ≤ 15)%nat →
          effects (turns E n key) w = repeat (EQueueAddRateLimited key) n)
  ∧ effects (turns E 16 key) w
    = (repeat (EQueueAddRateLimited key) 15
       ++ [EHandleError err; EQueueForget key])%list.
Proof.
  intros Hsplit Hcause Hzero. split; [| split].
  - unfold syncDeployment. by rewrite Hsplit.
  - intros n Hn. unfold effects, final.
    rewrite (turns_malformed E key err n w Hsplit).
    destruct (failures_requeued err key w n Hcause) as (Ht & _); [lia |].
    unfold final in Ht. rewrite Ht. apply drop_app_length.
  - unfold effects, final.
    rewrite (turns_malformed E key err 16 w Hsplit).
    destruct (failures_requeued err key w 15 Hcause) as (Ht & _ & _ & Hc);
      [lia |].
    change (failures 16 err key)
      with (let* _ := failures 15 err key in handleErr (Some err) key).
    fold (final (let* _ := failures 15 err key in handleErr (Some err) key) w).
    rewrite final_bind. unfold final at 1.
    rewrite (handleErr_failing_run err key _ Hcause).
    rewrite bool_decide_eq_false_2 by (unfold maxRetries; lia).
    cbn [snd w_trace]. rewrite Ht. rewrite <- app_assoc.
    apply drop_app_length.
Qed.

Lemma malformed_key_is_retried_witness :
  syncDeployment Fixture.cluster "a/b/c" Fixture.w0
    = (Some (Errorf "unexpected key format: a/b/c"), Fixture.w0)
  ∧ effects (turns Fixture.cluster 16 "a/b/c") Fixture.w0
    = (repeat (EQueueAddRateLimited "a/b/c") 15
       ++ [EHandleError (Errorf "unexpected key format: a/b/c");
           EQueueForget "a/b/c"])%list.
Proof.
  destruct (malformed_key_is_retried Fixture.cluster "a/b/c"
              (Errorf "unexpected key format: a/b/c") Fixture.w0)
    as (Hsync & _ & Hdrop); [reflexivity | reflexivity | reflexivity |].
  by split.
Defined.

(** A rate-limited enqueue spends the same budget. [enqueueRateLimited]
    schedules the Deployment's key with the delay its attempt counter
    decides and raises that counter by one, the counter [handleErr] compares
    with [maxRetries]; it puts nothing in the immediate queue. So when the
    counter stands at fourteen, one rate-limited enqueue makes the next
    failing sync of that key the one that drops it. *)
Theorem enqueueRateLimited_spends_budget d w :
  enqueueRateLimited d w
  = (tt, mkWorld (queue_AddRateLimited (keyOf d) (w_queue w))
                 (w_trace w ++ [EQueueAddRateLimited (keyOf d)]))
  ∧ q_items (w_queue (final (enqueueRateLimited d) w)) = q_items (w_queue w)
  ∧ NumRequeues (keyOf d) (w_queue (final (enqueueRateLimited d) w))
    = S (NumRequeues (keyOf d) (w_queue w))
  ∧ (∀ e, HasStatusCause e NamespaceTerminatingCause = false →
          NumRequeues (keyOf d) (w_queue w) = 14%nat →
          effects (let* _ := enqueueRateLimited d in
                   handleErr (Some e) (keyOf d)) w
          = [EQueueAddRateLimited (keyOf d); EHandleError e;
             EQueueForget (keyOf d)]).
Proof.
  assert (Hrun : enqueueRateLimited d w
    = (tt, mkWorld (queue_AddRateLimited (keyOf d) (w_queue w))
                   (w_trace w ++ [EQueueAddRateLimited (keyOf d)])))
    by reflexivity.
  assert (Hcount : NumRequeues (keyOf d)
                     (queue_AddRateLimited (keyOf d) (w_queue w))
                   = S (NumRequeues (keyOf d) (w_queue w))).
  { unfold NumRequeues at 1, queue_AddRateLimited. simpl.
    by rewrite lookup_insert_eq. }
  split; [exact Hrun |]. unfold final. rewrite Hrun. simpl.
  split; [done |]. split; [exact Hcount |].
  intros e Hcause H14. unfold effects, final, bind. rewrite Hrun.
  rewrite (handleErr_failing_run e (keyOf d) _ Hcause). simpl.
  rewrite Hcount, H14.
  rewrite bool_decide_eq_false_2 by (unfold maxRetries; lia).
  simpl. rewrite <- app_assoc. apply drop_app_length.
Qed.

(** ** The order of the sync *)

Lemma run_bind {A B} (m : M A) (k : A → M B) w :
  bind m k w = k (result m w) (final m w).
Proof. unfold result, final, bind. by destruct (m w). Qed.

Lemma getReplicaSetsForDeployment_result E d w w' :
  result (getReplicaSetsForDeployment E d) w
  = result (getReplicaSetsForDeployment E d) w'.
Proof.
  unfold result, getReplicaSetsForDeployment, rsLister_List, ClaimReplicaSets,
    bind, emit, ret. cbn beta iota.
  destruct (env_rsLister_List E _); [| done].
  by destruct (LabelSelectorAsSelector E _).
Qed.

Lemma getPodMapForDeployment_result E d rsList w w' :
  result (getPodMapForDeployment E d rsList) w
  = result (getPodMapForDeployment E d rsList) w'.
Proof.
  unfold result, getPodMapForDeployment, podLister_List, bind, emit, ret.
  destruct (LabelSelectorAsSelector E _); [| done]. cbn beta iota.
  by destruct (env_podLister_List E _ _).
Qed.

Lemma adds_getReplicaSetsForDeployment E d w :
  adds preparation w (final (getReplicaSetsForDeployment E d) w)
  ∧ w_queue (final (getReplicaSetsForDeployment E d) w) = w_queue w.
Proof.
  unfold final, getReplicaSetsForDeployment, rsLister_List, ClaimReplicaSets,
    bind, emit, ret. cbn beta iota.
  destruct (env_rsLister_List E _);
    [destruct (LabelSelectorAsSelector E _) |]; simpl.
  - split; [| done]. eexists. rewrite <- app_assoc. split; [done |].
    by repeat constructor.
  - split; [| done]. eexists. split; [done |]. by repeat constructor.
  - split; [| done]. eexists. split; [done |]. by repeat constructor.
Qed.

Lemma adds_getPodMapForDeployment E d rsList w :
  adds preparation w (final (getPodMapForDeployment E d rsList) w)
  ∧ w_queue (final (getPodMapForDeployment E d rsList) w) = w_queue w.
Proof.
  unfold final, getPodMapForDeployment, podLister_List, bind, emit, ret.
  destruct (LabelSelectorAsSelector E _); [| split; [apply adds_refl | done]].
  cbn beta iota.
  destruct (env_podLister_List E _ _); simpl;
    (split; [| done]); eexists; (split; [done |]); by repeat constructor.
Qed.

Lemma prepared_reads E namespace name d rsList w :
  adds preparation w (prepared E namespace name d rsList w)
  ∧ w_queue (prepared E namespace name d rsList w) = w_queue w.
Proof.
  unfold prepared.
  destruct (adds_getPodMapForDeployment E d rsList
              (final (getReplicaSetsForDeployment E d)
                 (final (dLister_Get E namespace name) w))) as [Ha3 Hq3].
  destruct (adds_getReplicaSetsForDeployment E d
              (final (dLister_Get E namespace name) w)) as [Ha2 Hq2].
  split.
  - eapply adds_trans; [| exact Ha3]. eapply adds_trans; [| exact Ha2].
    exists [EDeploymentGet namespace name]. split; [done |].
    by repeat constructor.
  - by rewrite Hq3, Hq2.
Qed.

(** The sync up to the point where the deployment, its claimed ReplicaSets
    and its pod map are at hand. *)
Lemma syncDeployment_prepared E key namespace name d rsList podMap w :
  SplitMetaNamespaceKey E key = inl (namespace, name) →
  env_dLister_Get E namespace name = inl d →
  spec_Selector (d_Spec d) ≠ Some everything →
  result (getReplicaSetsForDeployment E d) w = inl rsList →
  result (getPodMapForDeployment E d rsList) w = inl podMap →
  syncDeployment E key w
  = match DeletionTimestamp (d_meta d) with
    | Some _ => syncStatusOnly E d rsList
    | None =>
        let* (d, err) := checkPausedConditions E d in
        match err with
        | Some err => ret (Some err)
        | None =>
            if spec_Paused (d_Spec d) then sync E d rsList
            else
              match getRollbackTo E d with
              | Some _ => rollback E d rsList
              | None =>
                  let* r := isScalingEvent E d rsList in
                  match r with
                  | inr err => ret (Some err)
                  | inl scalingEvent =>
                      if (scalingEvent : bool) then sync E d rsList
                      else if bool_decide
                                (spec_StrategyType (d_Spec d)
                                 = RecreateDeploymentStrategyType)
                      then rolloutRecreate E d rsList podMap
                      else if bool_decide
                                (spec_StrategyType (d_Spec d)
                                 = RollingUpdateDeploymentStrategyType)
                      then rolloutRolling E d rsList
                      else ret (Some (Errorf
                             ("unexpected deployment strategy type: "
                              ++ spec_StrategyType (d_Spec d))))
                  end
              end
        end
    end (prepared E namespace name d rsList w).
Proof.
  intros Hsplit Hget Hsel Hrs Hpm.
  unfold syncDeployment. rewrite Hsplit.
  rewrite run_bind.
  change (result (dLister_Get E namespace name) w)
    with (env_dLister_Get E namespace name).
  rewrite Hget. cbn beta iota zeta.
  rewrite (bool_decide_eq_false_2 _ Hsel).
  rewrite run_bind.
  rewrite (getReplicaSetsForDeployment_result E d _ w), Hrs.
  cbn beta iota. rewrite run_bind.
  rewrite (getPodMapForDeployment_result E d rsList _ w), Hpm.
  reflexivity.
Qed.

(** A Deployment that is being deleted is only status-synced. Once the
    reads have succeeded, a sync of a Deployment whose deletion timestamp is
    set hands the Deployment and its claimed ReplicaSets to [syncStatusOnly]
    and returns what it returns; up to that call it has only read and
    claimed, and the queue is as it was. *)
Theorem syncDeployment_deleting E key namespace name d rsList podMap t w :
  SplitMetaNamespaceKey E key = inl (namespace, name) →
  env_dLister_Get E namespace name = inl d →
  spec_Selector (d_Spec d) ≠ Some everything →
  result (getReplicaSetsForDeployment E d) w = inl rsList →
  result (getPodMapForDeployment E d rsList) w = inl podMap →
  DeletionTimestamp (d_meta d) = Some t →
  syncDeployment E key w
    = syncStatusOnly E d rsList (prepared E namespace name d rsList w)
  ∧ adds preparation w (prepared E namespace name d rsList w)
  ∧ w_queue (prepared E namespace name d rsList w) = w_queue w.
Proof.
  intros Hsplit Hget Hsel Hrs Hpm Hdt.
  split; [| apply prepared_reads].
  rewrite (syncDeployment_prepared E key namespace name d rsList podMap w)
    by done.
  by rewrite Hdt.
Qed.

Lemma syncDeployment_deleting_witness :
  result (syncDeployment (Scenario.marking Scenario.world (Some 2%Z) true)
            "default/going") Fixture.w0
  = Some (Errorf "syncStatusOnly ran").
Proof.
  destruct (syncDeployment_deleting
              (Scenario.marking Scenario.world (Some 2%Z) true)
              "default/going" "default" "going" Scenario.going
              [Fixture.webRS; Fixture.idleRS]
              {[ "rs-1" := [Fixture.webPod]; "rs-2" := [] ]} 100%Z Fixture.w0)
    as [Hrun _]; [by vm_compute .. |].
  unfold result. by rewrite Hrun.
Defined.

(** While paused, nothing but the scale sync runs. For a Deployment that is
    not being deleted, once the paused-condition bookkeeping has succeeded
    and the Deployment it leaves is paused, the sync hands over to [sync]
    and returns what it returns: a pending rollback is not looked at, and
    neither the scaling test nor a rollout runs. When the bookkeeping fails,
    its error is returned and nothing else runs. *)
Theorem syncDeployment_paused E key namespace name d rsList podMap d' err w w' :
  SplitMetaNamespaceKey E key = inl (namespace, name) →
  env_dLister_Get E namespace name = inl d →
  spec_Selector (d_Spec d) ≠ Some everything →
  result (getReplicaSetsForDeployment E d) w = inl rsList →
  result (getPodMapForDeployment E d rsList) w = inl podMap →
  DeletionTimestamp (d_meta d) = None →
  checkPausedConditions E d (prepared E namespace name d rsList w)
    = ((d', err), w') →
  (∀ e, err = Some e → syncDeployment E key w = (Some e, w'))
  ∧ (err = None → spec_Paused (d_Spec d') = true →
     syncDeployment E key w = sync E d' rsList w').
Proof.
  intros Hsplit Hget Hsel Hrs Hpm Hdt Hcheck.
  rewrite (syncDeployment_prepared E key namespace name d rsList podMap w)
    by done.
  rewrite Hdt, run_bind. unfold result, final. rewrite Hcheck. simpl.
  split.
  - by intros e ->.
  - intros -> Hpaused. by rewrite Hpaused.
Qed.

Lemma syncDeployment_paused_witness :
  result (syncDeployment (Scenario.marking Scenario.world (Some 2%Z) true)
            "default/held") Fixture.w0
  = Some (Errorf "sync ran").
Proof.
  destruct (syncDeployment_paused
              (Scenario.marking Scenario.world (Some 2%Z) true)
              "default/held" "default" "held" Scenario.held
              [Fixture.webRS; Fixture.idleRS]
              {[ "rs-1" := [Fixture.webPod]; "rs-2" := [] ]}
              Scenario.held None Fixture.w0
              (prepared (Scenario.marking Scenario.world (Some 2%Z) true)
                 "default" "held" Scenario.held
                 [Fixture.webRS; Fixture.idleRS] Fixture.w0))
    as [_ Hrun]; [by vm_compute .. |].
  unfold result. by rewrite Hrun.
Defined.

(** A pending rollback comes before scaling and rollout. For a Deployment
    that is neither being deleted nor paused after the bookkeeping, when
    [getRollbackTo] finds a rollback request the sync hands over to
    [rollback] and returns what it returns, without testing for a scaling
    event and whatever the strategy. *)
Theorem syncDeployment_rollback_first
    E key namespace name d rsList podMap d' target w w' :
  SplitMetaNamespaceKey E key = inl (namespace, name) →
  env_dLister_Get E namespace name = inl d →
  spec_Selector (d_Spec d) ≠ Some everything →
  result (getReplicaSetsForDeployment E d) w = inl rsList →
  result (getPodMapForDeployment E d rsList) w = inl podMap →
  DeletionTimestamp (d_meta d) = None →
  checkPausedConditions E d (prepared E namespace name d rsList w)
    = ((d', None), w') →
  spec_Paused (d_Spec d') = false →
  getRollbackTo E d' = Some target →
  syncDeployment E key w = rollback E d' rsList w'.
Proof.
  intros Hsplit Hget Hsel Hrs Hpm Hdt Hcheck Hpaused Hrb.
  rewrite (syncDeployment_prepared E key namespace name d rsList podMap w)
    by done.
  rewrite Hdt, run_bind. unfold result, final. rewrite Hcheck. simpl.
  by rewrite Hpaused, Hrb.
Qed.

Lemma syncDeployment_rollback_first_witness :
  result (syncDeployment (Scenario.marking Scenario.world (Some 2%Z) true)
            "default/rolling") Fixture.w0
  = Some (Errorf "rollback ran").
Proof.
  unfold result.
  rewrite (syncDeployment_rollback_first
             (Scenario.marking Scenario.world (Some 2%Z) true)
             "default/rolling" "default" "rolling" Scenario.rolling
             [Fixture.webRS; Fixture.idleRS]
             {[ "rs-1" := [Fixture.webPod]; "rs-2" := [] ]}
             Scenario.rolling 2%Z Fixture.w0
             (prepared (Scenario.marking Scenario.world (Some 2%Z) true)
                "default" "rolling" Scenario.rolling
                [Fixture.webRS; Fixture.idleRS] Fixture.w0));
    by vm_compute.
Defined.

(** The rollout is chosen last, and a scaling event pre-empts it. For a
    Deployment that is not being deleted, not paused and has no rollback
    pending, with the scaling test answered: on a scaling event the sync
    hands over to [sync]; otherwise to [rolloutRecreate] (with the pod map)
    for the Recreate strategy and to [rolloutRolling] for RollingUpdate; for
    any other strategy it returns a plain error naming the strategy, which
    the retry policy does not treat as terminal. An error of the scaling
    test is returned as it is. *)
Theorem syncDeployment_rollout
    E key namespace name d rsList podMap d' r w w1 w2 :
  SplitMetaNamespaceKey E key = inl (namespace, name) →
  env_dLister_Get E namespace name = inl d →
  spec_Selector (d_Spec d) ≠ Some everything →
  result (getReplicaSetsForDeployment E d) w = inl rsList →
  result (getPodMapForDeployment E d rsList) w = inl podMap →
  DeletionTimestamp (d_meta d) = None →
  checkPausedConditions E d (prepared E namespace name d rsList w)
    = ((d', None), w1) →
  spec_Paused (d_Spec d') = false →
  getRollbackTo E d' = None →
  isScalingEvent E d' rsList w1 = (r, w2) →
  (∀ e, r = inr e → syncDeployment E key w = (Some e, w2))
  ∧ (r = inl true → syncDeployment E key w = sync E d' rsList w2)
  ∧ (r = inl false →
     (spec_StrategyType (d_Spec d') = RecreateDeploymentStrategyType →
      syncDeployment E key w = rolloutRecreate E d' rsList podMap w2)
     ∧ (spec_StrategyType (d_Spec d') = RollingUpdateDeploymentStrategyType →
        syncDeployment E key w = rolloutRolling E d' rsList w2)
     ∧ (spec_StrategyType (d_Spec d') ≠ RecreateDeploymentStrategyType →
        spec_StrategyType (d_Spec d') ≠ RollingUpdateDeploymentStrategyType →
        ∃ e, syncDeployment E key w = (Some e, w2)
             ∧ err_message e
               = "unexpected deployment strategy type: "
                 ++ spec_StrategyType (d_Spec d')
             ∧ IsNotFound (Some e) = false
             ∧ HasStatusCause e NamespaceTerminatingCause = false)).
Proof.
  intros Hsplit Hget Hsel Hrs Hpm Hdt Hcheck Hpaused Hrb Hscale.
  rewrite (syncDeployment_prepared E key namespace name d rsList podMap w)
    by done.
  rewrite Hdt, run_bind. unfold result, final. rewrite Hcheck. simpl.
  rewrite Hpaused, Hrb, run_bind. unfold result, final. rewrite Hscale. simpl.
  split; [by intros e -> |]. split; [by intros -> |].
  intros ->. split; [| split].
  - intros Hs. by rewrite (bool_decide_eq_true_2 _ Hs).
  - intros Hs. rewrite bool_decide_eq_false_2 by (by rewrite Hs).
    by rewrite (bool_decide_eq_true_2 _ Hs).
  - intros Hs1 Hs2.
    rewrite (bool_decide_eq_false_2 _ Hs1), (bool_decide_eq_false_2 _ Hs2).
    by eexists.
Qed.

Lemma syncDeployment_rollout_witness :
  (∃ e, syncDeployment (Scenario.marking Scenario.world None false)
          "default/odd" Fixture.w0
        = (Some e, prepared (Scenario.marking Scenario.world None false)
                     "default" "odd" Scenario.odd
                     [Fixture.webRS; Fixture.idleRS] Fixture.w0)
        ∧ err_message e = "unexpected deployment strategy type: BlueGreen"
        ∧ IsNotFound (Some e) = false
        ∧ HasStatusCause e NamespaceTerminatingCause = false)
  ∧ result (syncDeployment (Scenario.marking Scenario.world None true)
              "default/rolling") Fixture.w0
    = Some (Errorf "sync ran").
Proof.
  split.
  - destruct (syncDeployment_rollout
                (Scenario.marking Scenario.world None false)
                "default/odd" "default" "odd" Scenario.odd
                [Fixture.webRS; Fixture.idleRS]
                {[ "rs-1" := [Fixture.webPod]; "rs-2" := [] ]}
                Scenario.odd (inl false) Fixture.w0
                (prepared (Scenario.marking Scenario.world None false)
                   "default" "odd" Scenario.odd
                   [Fixture.webRS; Fixture.idleRS] Fixture.w0)
                (prepared (Scenario.marking Scenario.world None false)
                   "default" "odd" Scenario.odd
                   [Fixture.webRS; Fixture.idleRS] Fixture.w0))
      as (_ & _ & Hrollout); [by vm_compute .. |].
    destruct (Hrollout eq_refl) as (_ & _ & Hodd).
    apply Hodd; by vm_compute.
  - destruct (syncDeployment_rollout
                (Scenario.marking Scenario.world None true)
                "default/rolling" "default" "rolling" Scenario.rolling
                [Fixture.webRS; Fixture.idleRS]
                {[ "rs-1" := [Fixture.webPod]; "rs-2" := [] ]}
                Scenario.rolling (inl true) Fixture.w0
                (prepared (Scenario.marking Scenario.world None true)
                   "default" "rolling" Scenario.rolling
                   [Fixture.webRS; Fixture.idleRS] Fixture.w0)
                (prepared (Scenario.marking Scenario.world None true)
                   "default" "rolling" Scenario.rolling
                   [Fixture.webRS; Fixture.idleRS] Fixture.w0))
      as (_ & Hscale & _); [by vm_compute .. |].
    unfold result. by rewrite (Hscale eq_refl).
Defined.

(** A sync that cannot claim or group stops there. For a Deployment with a
    selector other than the empty one, an error of
    [getReplicaSetsForDeployment] is returned as that function made it,
    before any pod is listed; an error of the grouping helper is returned as
    it is. In both cases the sync has only read and claimed: it ran none of
    the convergence routines, wrote no status, emitted no event and left the
    queue as it was. *)
Theorem syncDeployment_failed_preparation E key namespace name d w :
  SplitMetaNamespaceKey E key = inl (namespace, name) →
  env_dLister_Get E namespace name = inl d →
  spec_Selector (d_Spec d) ≠ Some everything →
  (∀ err, result (getReplicaSetsForDeployment E d) w = inr err →
     ∃ w', syncDeployment E key w = (Some err, w')
           ∧ adds claiming w w'
           ∧ w_queue w' = w_queue w)
  ∧ (∀ rsList err,
       result (getReplicaSetsForDeployment E d) w = inl rsList →
       result (getPodMapForDeployment E d rsList) w = inr err →
       syncDeployment E key w
         = (Some err, prepared E namespace name d rsList w)
       ∧ adds preparation w (prepared E namespace name d rsList w)
       ∧ w_queue (prepared E namespace name d rsList w) = w_queue w).
Proof.
  intros Hsplit Hget Hsel. split.
  - intros err Hrs.
    exists (final (getReplicaSetsForDeployment E d)
              (final (dLister_Get E namespace name) w)).
    split; [| split].
    + unfold syncDeployment. rewrite Hsplit, run_bind.
      change (result (dLister_Get E namespace name) w)
        with (env_dLister_Get E namespace name).
      rewrite Hget. cbn beta iota zeta.
      rewrite (bool_decide_eq_false_2 _ Hsel), run_bind.
      by rewrite (getReplicaSetsForDeployment_result E d _ w), Hrs.
    + apply adds_trans
        with (final (dLister_Get E namespace name) w).
      { exists [EDeploymentGet namespace name]. split; [done |].
        by repeat constructor. }
      unfold final, getReplicaSetsForDeployment, rsLister_List,
        ClaimReplicaSets, bind, emit, ret. cbn beta iota.
      destruct (env_rsLister_List E _);
        [destruct (LabelSelectorAsSelector E _) |]; simpl.
      * eexists. rewrite <- app_assoc. split; [done |].
        by repeat constructor.
      * eexists. split; [done |]. by repeat constructor.
      * eexists. split; [done |]. by repeat constructor.
    + by destruct (adds_getReplicaSetsForDeployment E d
                     (final (dLister_Get E namespace name) w)) as [_ ->].
  - intros rsList err Hrs Hpm. split; [| apply prepared_reads].
    unfold syncDeployment. rewrite Hsplit, run_bind.
    change (result (dLister_Get E namespace name) w)
      with (env_dLister_Get E namespace name).
    rewrite Hget. cbn beta iota zeta.
    rewrite (bool_decide_eq_false_2 _ Hsel), run_bind.
    rewrite (getReplicaSetsForDeployment_result E d _ w), Hrs.
    cbn beta iota. rewrite run_bind.
    by rewrite (getPodMapForDeployment_result E d rsList _ w), Hpm.
Qed.

Lemma syncDeployment_failed_preparation_witness :
  syncDeployment Scenario.refusing "default/rolling" Fixture.w0
  = (Some Fixture.conflict,
     mkWorld emptyQueue
       [EDeploymentGet "default" "rolling"; EReplicaSetList "default";
        EClaimReplicaSets Scenario.rolling [Fixture.webRS; Fixture.idleRS]]).
Proof.
  destruct (syncDeployment_failed_preparation Scenario.refusing
              "default/rolling" "default" "rolling" Scenario.rolling
              Fixture.w0) as [Hclaim _]; [by vm_compute .. |].
  destruct (Hclaim Fixture.conflict) as (w' & Hrun & _); [by vm_compute |].
  rewrite Hrun. by vm_compute.
Defined.
